(** * Email extractor and summarizer: a shallow embedding of [app/main.py]

    The program is a sequential pipeline of calls to three external services
    (IMAP mailbox, chat-completion API, table store).  The embedding keeps the
    control flow of the Python source (try/except blocks, for loops, the
    [with] block of the mailbox session) in a small monad that threads the
    mutable state, carries exceptions and records the external interactions
    and logger calls in the order in which they happen.

    The external services are a [World]: a record of oracles, indexed by the
    number of calls made to that service so far where the answer may change
    from one call to the next. *)

From Stdlib Require Import ZArith List String Ascii Bool Arith Lia DecimalString Sorted.
Import ListNotations.
Local Open Scope list_scope.
Local Open Scope string_scope.

(** ** Exceptions *)

(** [detail] of a FastAPI [HTTPException]: a plain string or a dict of
    strings. *)
Inductive Detail : Type :=
| DetailStr (s : string)
| DetailDict (d : list (string * string)).

(** The exceptions of the program: [HTTPException], and every other
    [Exception], of which the program only ever uses [str(e)]. *)
Inductive Exc : Type :=
| Exception (msg : string)
| HTTPException (status_code : Z) (detail : Detail).

Inductive Outcome (A : Type) : Type :=
| Return (a : A)
| Raise (e : Exc).
Arguments Return {A} a.
Arguments Raise {A} e.

(** ** Dates and times *)

(** A Python [datetime].  The calendar and clock fields (year, month, day,
    hour, minute, second, microsecond) are encoded by the number of
    microseconds they denote since 0001-01-01T00:00:00; [tzinfo] is the UTC
    offset in microseconds, [None] for a naive datetime. *)
Record datetime : Type := mkDatetime { naive : Z; tzinfo : option Z }.

Definition utc : option Z := Some 0%Z.

Definition microseconds_per_day : Z := 86400000000%Z.

(** [timedelta(days=n)] *)
Definition timedelta_days (n : Z) : Z := (n * microseconds_per_day)%Z.

(** [d - delta] *)
Definition datetime_sub (d : datetime) (delta : Z) : datetime :=
  {| naive := (naive d - delta)%Z; tzinfo := tzinfo d |}.

(** [d.replace(tzinfo=tz)]: the fields are kept, the zone label is changed. *)
Definition replace_tzinfo (d : datetime) (tz : option Z) : datetime :=
  {| naive := naive d; tzinfo := tz |}.

(** [d.date()]: the calendar day, as a day number. *)
Definition datetime_date (d : datetime) : Z := (naive d / microseconds_per_day)%Z.

(** [a >= b].  Two aware datetimes are compared as instants, two naive ones
    by their fields, and Python raises [TypeError] on a mixed pair. *)
Definition datetime_ge (a b : datetime) : Outcome bool :=
  match tzinfo a, tzinfo b with
  | Some oa, Some ob => Return (naive b - ob <=? naive a - oa)%Z
  | None, None => Return (naive b <=? naive a)%Z
  | _, _ => Raise (Exception "can't compare offset-naive and offset-aware datetimes")
  end.

(** The instant an aware datetime denotes, in microseconds of UTC. *)
Definition instant (d : datetime) : option Z :=
  match tzinfo d with
  | Some o => Some (naive d - o)%Z
  | None => None
  end.

(** ** Data model *)

(** A message as [imap_tools] hands it over.  The attributes are parsed on
    access, so each access may raise. *)
Module Msg.
Record t : Type := mk {
  date : Outcome datetime;
  subject : Outcome string;
  from_ : Outcome string;
  to : Outcome (list string);
  text : Outcome string;
  html : Outcome string
}.
End Msg.

(** The dict [email_content]; [summary] is [None] until the key is set. *)
Record EmailContent : Type := mkEmailContent {
  subject : string;
  from_address : string;
  to_address : string;
  date : string;
  text : string;
  extracted_at : string;
  summary : option string
}.

Definition set_summary (c : EmailContent) (s : string) : EmailContent :=
  {| subject := subject c; from_address := from_address c;
     to_address := to_address c; date := date c; text := text c;
     extracted_at := extracted_at c; summary := Some s |}.

Module EmailRequest.
Record t : Type := mk {
  email_address : string;
  password : string;
  sender_addresses : list string
}.
End EmailRequest.

Record ChatMessage : Type := mkChatMessage { role : string; content : string }.

(** The arguments of [chat.completions.create]; the temperature 0.5 is kept
    as the fraction 1/2. *)
Record ChatRequest : Type := mkChatRequest {
  messages : list ChatMessage;
  model : string;
  temperature : Z * Z;
  max_tokens : Z
}.

(** JSON values of the response bodies. *)
Inductive Value : Type :=
| VStr (s : string)
| VInt (n : Z)
| VStrList (l : list string)
| VRows (l : list EmailContent).

Definition Dict : Type := list (string * Value).

Fixpoint get (k : string) (d : Dict) : option Value :=
  match d with
  | [] => None
  | (k', v) :: d' => if String.eqb k k' then Some v else get k d'
  end.

(** ** The outside world and its observation *)

Inductive Level : Type := DEBUG | INFO | WARNING | ERROR.

(** What the program does to the outside, in order. *)
Inductive Event : Type :=
| Log (lvl : Level) (msg : string)
| Now
| Login (email_address password : string)
| Fetch (from_ : string) (date_gte : Z)
| Logout
| ChatCreate (req : ChatRequest)
| Insert (row : EmailContent)
| Select (order : string).

Record World : Type := mkWorld {
  (** the n-th reading of [datetime.now(utc)] *)
  now_utc : nat -> Z;
  (** [MailBox('imap.gmail.com').login(address, password, 'INBOX')]:
      [None] when the session opens *)
  imap_login : string -> string -> option Exc;
  (** the n-th [mailbox.fetch(AND(from_=.., date_gte=..))]: the messages the
      generator yields, and the exception it then raises, if any *)
  imap_fetch : nat -> string -> Z -> list Msg.t * option Exc;
  (** [mailbox.logout()], run when the [with] block is left *)
  imap_logout : option Exc;
  (** the n-th [groq_client.chat.completions.create]: the [message.content]
      of each of the [choices] *)
  groq_create : nat -> ChatRequest -> Outcome (list string);
  (** the n-th [supabase.table("emails").insert(row).execute()] *)
  supabase_insert : nat -> EmailContent -> option Exc;
  (** [supabase.table("emails").select("*").order(o).execute().data] *)
  supabase_select : string -> Outcome (list EmailContent)
}.

(** The counters of the calls made so far, and the two local variables the
    loops mutate. *)
Record State : Type := mkState {
  clock_reads : nat;
  fetch_calls : nat;
  chat_calls : nat;
  insert_calls : nat;
  email_data : list EmailContent;
  stored_count : nat
}.

Definition tick_clock (s : State) : State :=
  mkState (S (clock_reads s)) (fetch_calls s) (chat_calls s) (insert_calls s)
          (email_data s) (stored_count s).
Definition tick_fetch (s : State) : State :=
  mkState (clock_reads s) (S (fetch_calls s)) (chat_calls s) (insert_calls s)
          (email_data s) (stored_count s).
Definition tick_chat (s : State) : State :=
  mkState (clock_reads s) (fetch_calls s) (S (chat_calls s)) (insert_calls s)
          (email_data s) (stored_count s).
Definition tick_insert (s : State) : State :=
  mkState (clock_reads s) (fetch_calls s) (chat_calls s) (S (insert_calls s))
          (email_data s) (stored_count s).
Definition set_email_data (l : list EmailContent) (s : State) : State :=
  mkState (clock_reads s) (fetch_calls s) (chat_calls s) (insert_calls s)
          l (stored_count s).
Definition set_stored_count (n : nat) (s : State) : State :=
  mkState (clock_reads s) (fetch_calls s) (chat_calls s) (insert_calls s)
          (email_data s) n.

(** ** The monad: state, exceptions, and the trace of events *)

Definition M (A : Type) : Type := State -> Outcome A * State * list Event.

Definition ret {A} (a : A) : M A := fun s => (Return a, s, []).

Definition raise {A} (e : Exc) : M A := fun s => (Raise e, s, []).

Definition bind {A B} (m : M A) (k : A -> M B) : M B := fun s =>
  match m s with
  | (Return a, s1, t1) => let '(r, s2, t2) := k a s1 in (r, s2, (t1 ++ t2)%list)
  | (Raise e, s1, t1) => (Raise e, s1, t1)
  end.

(** [try: m  except Exception as e: h e] *)
Definition try_except {A} (m : M A) (h : Exc -> M A) : M A := fun s =>
  match m s with
  | (Return a, s1, t1) => (Return a, s1, t1)
  | (Raise e, s1, t1) => let '(r, s2, t2) := h e s1 in (r, s2, (t1 ++ t2)%list)
  end.

(** [with ... : body]: [exit] runs however [body] ends, and an exception it
    raises replaces the outcome of [body]. *)
Definition with_exit {A} (body : M A) (exit : M unit) : M A := fun s =>
  let '(r, s1, t1) := body s in
  match exit s1 with
  | (Return _, s2, t2) => (r, s2, (t1 ++ t2)%list)
  | (Raise e, s2, t2) => (Raise e, s2, (t1 ++ t2)%list)
  end.

Definition emit (e : Event) : M unit := fun s => (Return tt, s, [e]).
Definition lift {A} (o : Outcome A) : M A := fun s => (o, s, []).
Definition gets {A} (f : State -> A) : M A := fun s => (Return (f s), s, []).
Definition modify (f : State -> State) : M unit := fun s => (Return tt, f s, []).

Notation "x <- m ;; k" := (bind m (fun x => k))
  (at level 61, m at next level, right associativity).
Notation "m ;; k" := (bind m (fun _ => k))
  (at level 61, right associativity).

(** [for x in l: body x] *)
Fixpoint for_each {A} (l : list A) (body : A -> M unit) : M unit :=
  match l with
  | [] => ret tt
  | x :: l' => body x ;; for_each l' body
  end.

(** Iteration over a generator that yields [fst g] and then raises [snd g],
    if it is an exception. *)
Definition for_gen {A} (g : list A * option Exc) (body : A -> M unit) : M unit :=
  for_each (fst g) body ;;
  match snd g with
  | None => ret tt
  | Some e => raise e
  end.

Definition exec {A} (m : M A) (s : State) : Outcome A * State := fst (m s).
Definition trace {A} (m : M A) (s : State) : list Event := snd (m s).

(** [logging.basicConfig(level=logging.INFO)]: calls below INFO print
    nothing. *)
Definition enabled (l : Level) : bool :=
  match l with DEBUG => false | _ => true end.

Fixpoint log_output (t : list Event) : list (Level * string) :=
  match t with
  | [] => []
  | Log l m :: t' => if enabled l then (l, m) :: log_output t' else log_output t'
  | _ :: t' => log_output t'
  end.

Fixpoint inserts (t : list Event) : list EmailContent :=
  match t with
  | [] => []
  | Insert r :: t' => r :: inserts t'
  | _ :: t' => inserts t'
  end.

(** Renderings of the Python runtime and of the web framework, which the
    source calls and does not define. *)
Record Runtime : Type := mkRuntime {
  (** [d.isoformat()] *)
  isoformat : datetime -> string;
  (** [str(d)], as an f-string prints a datetime *)
  str_datetime : datetime -> string;
  (** [str(HTTPException(status_code, detail))] *)
  str_http : Z -> Detail -> string
}.

(** ** The program *)

Definition nl : string := String (ascii_of_nat 10) EmptyString.

(** [str(n)] of a natural number *)
Definition str_nat (n : nat) : string := NilEmpty.string_of_uint (Nat.to_uint n).

(** [", ".join(l)] *)
Definition join (sep : string) (l : list string) : string := String.concat sep l.

(** [s[:n]] *)
Definition prefix_of (n : nat) (s : string) : string := substring 0 n s.

(** Truth value of a string: [False] when empty. *)
Definition truthy (s : string) : bool :=
  match s with EmptyString => false | _ => true end.

Definition summary_sentinel : string := "Failed to generate summary".

Section Pipeline.

Variable rt : Runtime.
Variable w : World.

(** [str(e)] *)
Definition str_exc (e : Exc) : string :=
  match e with
  | Exception msg => msg
  | HTTPException c d => str_http rt c d
  end.

Definition logger_debug (msg : string) : M unit := emit (Log DEBUG msg).
Definition logger_info (msg : string) : M unit := emit (Log INFO msg).
Definition logger_warning (msg : string) : M unit := emit (Log WARNING msg).
Definition logger_error (msg : string) : M unit := emit (Log ERROR msg).

(** [datetime.now(utc)] *)
Definition datetime_now_utc : M datetime := fun s =>
  (Return {| naive := now_utc w (clock_reads s); tzinfo := utc |},
   tick_clock s, [Now]).

Definition mailbox_login (address pw : string) : M unit := fun s =>
  (match imap_login w address pw with
   | None => Return tt
   | Some e => Raise e
   end, s, [Login address pw]).

Definition mailbox_logout : M unit := fun s =>
  (match imap_logout w with
   | None => Return tt
   | Some e => Raise e
   end, s, [Logout]).

Definition mailbox_fetch (sender : string) (date_gte : Z)
  : M (list Msg.t * option Exc) := fun s =>
  (Return (imap_fetch w (fetch_calls s) sender date_gte),
   tick_fetch s, [Fetch sender date_gte]).

Definition chat_completions_create (req : ChatRequest) : M (list string) :=
  fun s => (groq_create w (chat_calls s) req, tick_chat s, [ChatCreate req]).

Definition table_insert (row : EmailContent) : M unit := fun s =>
  (match supabase_insert w (insert_calls s) row with
   | None => Return tt
   | Some e => Raise e
   end, tick_insert s, [Insert row]).

Definition table_select (order : string) : M (list EmailContent) := fun s =>
  (supabase_select w order, s, [Select order]).

(** [choices[0]], an [IndexError] on an empty list *)
Definition first_choice (choices : list string) : Outcome string :=
  match choices with
  | c :: _ => Return c
  | [] => Raise (Exception "list index out of range")
  end.

Definition system_prompt : string :=
  "You are a helpful assistant that summarizes emails. Provide a concise summary of the key points and any important action items. Keep the summary under 200 words.".

Definition summary_request (email_content : EmailContent) : ChatRequest :=
  let email_text :=
    "Subject: " ++ subject email_content ++ nl ++
    "From: " ++ from_address email_content ++ nl ++
    "Date: " ++ date email_content ++ nl ++
    "Content: " ++ prefix_of 2000 (text email_content) ++ "..." in
  {| messages :=
       [ {| role := "system"; content := system_prompt |};
         {| role := "user";
            content := "Please provide a brief summary of this email:" ++ nl
                       ++ email_text |} ];
     model := "mixtral-8x7b-32768";
     temperature := (1, 2)%Z;
     max_tokens := 200%Z |}.

Definition summarize_single_email (email_content : EmailContent) : M string :=
  try_except
    (logger_info ("Generating summary for email: "
                  ++ prefix_of 30 (subject email_content) ++ "...") ;;
     chat_completion <- chat_completions_create (summary_request email_content) ;;
     lift (first_choice chat_completion))
    (fun e =>
       logger_error ("Failed to generate summary for email: " ++ str_exc e) ;;
       ret summary_sentinel).

(** The body of [for msg in messages], with its own try/except. *)
Definition process_message (date_since : datetime) (msg : Msg.t) : M unit :=
  try_except
    (d <- lift (Msg.date msg) ;;
     let msg_date := replace_tzinfo d utc in
     logger_debug ("Message date: " ++ str_datetime rt msg_date
                   ++ ", Comparing with: " ++ str_datetime rt date_since) ;;
     recent <- lift (datetime_ge msg_date date_since) ;;
     if recent : bool then
       msg_subject <- lift (Msg.subject msg) ;;
       msg_from <- lift (Msg.from_ msg) ;;
       msg_to <- lift (Msg.to msg) ;;
       msg_text <- lift (Msg.text msg) ;;
       body <- (if truthy msg_text then ret msg_text else lift (Msg.html msg)) ;;
       now <- datetime_now_utc ;;
       let email_content :=
         {| subject := msg_subject;
            from_address := msg_from;
            to_address := join ", " msg_to;
            date := isoformat rt msg_date;
            text := body;
            extracted_at := isoformat rt now;
            summary := None |} in
       s <- summarize_single_email email_content ;;
       let email_content := set_summary email_content s in
       modify (fun st => set_email_data (email_data st ++ [email_content])%list st) ;;
       logger_info ("Processed email: " ++ prefix_of 30 msg_subject ++ "...")
     else
       logger_debug ("Skipping email from " ++ str_datetime rt msg_date
                     ++ " as it's older than " ++ str_datetime rt date_since))
    (fun e =>
       logger_error ("Error processing individual email: " ++ str_exc e)).

(** The body of [for sender in sender_addresses]. *)
Definition process_sender (date_since : datetime) (sender : string) : M unit :=
  logger_info ("Fetching emails from sender: " ++ sender) ;;
  messages <- mailbox_fetch sender (datetime_date date_since) ;;
  for_gen messages (process_message date_since).

Definition extract_emails_from_inbox
           (email_address password : string) (sender_addresses : list string)
  : M (list EmailContent) :=
  modify (set_email_data []) ;;
  try_except
    (logger_info ("Attempting to connect to Gmail IMAP for: " ++ email_address) ;;
     now <- datetime_now_utc ;;
     let date_since := datetime_sub now (timedelta_days 1) in
     mailbox_login email_address password ;;
     with_exit
       (logger_info "Successfully connected to Gmail" ;;
        for_each sender_addresses (process_sender date_since))
       mailbox_logout ;;
     n <- gets (fun st => List.length (email_data st)) ;;
     logger_info ("Successfully extracted " ++ str_nat n ++ " emails") ;;
     gets email_data)
    (fun e =>
       let error_msg := str_exc e in
       logger_error ("Failed to fetch emails: " ++ error_msg) ;;
       raise (HTTPException 500
                (DetailDict [ ("message", "Failed to fetch emails");
                              ("error", error_msg);
                              ("email", email_address) ]))).

(** The body of [for email_data in extracted_emails], with its own
    try/except. *)
Definition store_email (row : EmailContent) : M unit :=
  try_except
    (table_insert row ;;
     modify (fun st => set_stored_count (stored_count st + 1) st) ;;
     logger_info ("Stored email: " ++ prefix_of 30 (subject row) ++ "..."))
    (fun e => logger_error ("Failed to store email: " ++ str_exc e)).

Definition no_emails_message : string :=
  "No emails found in the last 24 hours from specified senders".

(** [POST /extract] *)
Definition extract_from_email (request : EmailRequest.t) : M Dict :=
  try_except
    (logger_info ("Starting email extraction for: "
                  ++ EmailRequest.email_address request) ;;
     extracted_emails <-
       extract_emails_from_inbox (EmailRequest.email_address request)
                                 (EmailRequest.password request)
                                 (EmailRequest.sender_addresses request) ;;
     match extracted_emails with
     | [] =>
         logger_warning no_emails_message ;;
         ret [ ("message", VStr no_emails_message);
               ("senders_processed",
                VStrList (EmailRequest.sender_addresses request)) ]
     | _ :: _ =>
         logger_info "Storing emails in Supabase" ;;
         modify (set_stored_count 0) ;;
         for_each extracted_emails store_email ;;
         stored <- gets stored_count ;;
         ret [ ("message", VStr "Emails extracted and stored successfully");
               ("emails_found", VInt (Z.of_nat (List.length extracted_emails)));
               ("emails_stored", VInt (Z.of_nat stored));
               ("senders_processed",
                VStrList (EmailRequest.sender_addresses request)) ]
     end)
    (fun e =>
       logger_error ("Error in extract_from_email: " ++ str_exc e) ;;
       match e with
       | HTTPException _ _ => raise e
       | Exception _ => raise (HTTPException 500 (DetailStr (str_exc e)))
       end).

(** [GET /emails] *)
Definition get_emails : M Dict :=
  try_except
    (logger_info "Retrieving emails from Supabase" ;;
     emails <- table_select "date.desc" ;;
     match emails with
     | [] =>
         logger_warning "No emails found in database" ;;
         ret [ ("message", VStr "No emails found in database") ]
     | _ :: _ =>
         ret [ ("emails", VRows emails);
               ("total_count", VInt (Z.of_nat (List.length emails))) ]
     end)
    (fun e =>
       logger_error ("Error in get_emails: " ++ str_exc e) ;;
       raise (HTTPException 500 (DetailStr (str_exc e)))).

End Pipeline.

(** ** What one run computes, without the trace

    The functions of this section say what the loops of
    [extract_emails_from_inbox] do to the state.  They are not part of the
    program: the lemmas below prove that the program computes them, and the
    properties of the program are then read off them. *)

Section Denotation.

Variable rt : Runtime.
Variable w : World.

(** What the loop body reads from a message before it touches the outside. *)
Record Fields : Type := mkFields {
  f_subject : string;
  f_from : string;
  f_to : list string;
  f_date : datetime;
  f_body : string
}.

Definition and_then {A B} (o : Outcome A) (k : A -> Outcome B) : Outcome B :=
  match o with
  | Return a => k a
  | Raise e => Raise e
  end.

(** [Raise]: an access raised; [Return None]: older than the cutoff;
    [Return (Some f)]: a record is built from [f]. *)
Definition read_message (date_since : datetime) (msg : Msg.t)
  : Outcome (option Fields) :=
  and_then (Msg.date msg) (fun d =>
  let msg_date := replace_tzinfo d utc in
  and_then (datetime_ge msg_date date_since) (fun recent =>
  if recent : bool then
    and_then (Msg.subject msg) (fun msg_subject =>
    and_then (Msg.from_ msg) (fun msg_from =>
    and_then (Msg.to msg) (fun msg_to =>
    and_then (Msg.text msg) (fun msg_text =>
    and_then (if truthy msg_text then Return msg_text else Msg.html msg)
             (fun body =>
    Return (Some (mkFields msg_subject msg_from msg_to msg_date body)))))))
  else Return None)).

Definition content_of (f : Fields) (now : datetime) : EmailContent :=
  {| subject := f_subject f;
     from_address := f_from f;
     to_address := join ", " (f_to f);
     date := isoformat rt (f_date f);
     text := f_body f;
     extracted_at := isoformat rt now;
     summary := None |}.

(** The summary a response of the chat API leads to. *)
Definition summary_of (response : Outcome (list string)) : string :=
  match response with
  | Return (c :: _) => c
  | Return [] => summary_sentinel
  | Raise _ => summary_sentinel
  end.

Definition record_of (f : Fields) (s : State) : EmailContent :=
  let c := content_of f {| naive := now_utc w (clock_reads s); tzinfo := utc |} in
  set_summary c (summary_of (groq_create w (chat_calls s) (summary_request c))).

Definition message_step (date_since : datetime) (s : State) (msg : Msg.t) : State :=
  match read_message date_since msg with
  | Return (Some f) =>
      set_email_data (email_data s ++ [record_of f s])%list
                     (tick_chat (tick_clock s))
  | _ => s
  end.

Fixpoint senders_run (date_since : datetime) (senders : list string) (s : State)
  : Outcome unit * State :=
  match senders with
  | [] => (Return tt, s)
  | sender :: rest =>
      let g := imap_fetch w (fetch_calls s) sender (datetime_date date_since) in
      let s1 := fold_left (message_step date_since) (fst g) (tick_fetch s) in
      match snd g with
      | Some e => (Raise e, s1)
      | None => senders_run date_since rest s1
      end
  end.

(** The cutoff of a run that starts in state [s]. *)
Definition cutoff (s : State) : datetime :=
  datetime_sub {| naive := now_utc w (clock_reads s); tzinfo := utc |}
               (timedelta_days 1).

Definition fetch_error (email_address : string) (e : Exc) : Exc :=
  HTTPException 500
    (DetailDict [ ("message", "Failed to fetch emails");
                  ("error", str_exc rt e);
                  ("email", email_address) ]).

Definition extract_run (email_address password : string) (senders : list string)
           (s : State) : Outcome (list EmailContent) * State :=
  let s0 := tick_clock (set_email_data [] s) in
  match imap_login w email_address password with
  | Some e => (Raise (fetch_error email_address e), s0)
  | None =>
      let '(o, s1) := senders_run (cutoff s) senders s0 in
      match imap_logout w, o with
      | Some e, _ => (Raise (fetch_error email_address e), s1)
      | None, Raise e => (Raise (fetch_error email_address e), s1)
      | None, Return _ => (Return (email_data s1), s1)
      end
  end.

(** The state after the store loop of [/extract]. *)
Definition store_step (s : State) (row : EmailContent) : State :=
  match supabase_insert w (insert_calls s) row with
  | None => set_stored_count (stored_count s + 1) (tick_insert s)
  | Some _ => tick_insert s
  end.

End Denotation.



(** The events a run of [extract_emails_from_inbox] may produce when its
    searches ask for messages since day [d]: no access to the store, and no
    search with another date. *)
Definition inbox_event (d : Z) (e : Event) : Prop :=
  match e with
  | Insert _ | Select _ => False
  | Fetch _ d' => d' = d
  | _ => True
  end.

(** A message the run has been handed by one of its searches since day [d]. *)
Definition fetched (w : World) (d : Z) (m : Msg.t) : Prop :=
  exists k sender, In m (fst (imap_fetch w k sender d)).

(** The rows whose insertion succeeds when [rows] are inserted one after
    the other, the first one by insert number [n]. *)
Fixpoint stored_rows (w : World) (n : nat) (rows : list EmailContent)
  : list EmailContent :=
  match rows with
  | [] => []
  | r :: rest =>
      match supabase_insert w n r with
      | None => r :: stored_rows w (S n) rest
      | Some _ => stored_rows w (S n) rest
      end
  end.

(** The response of [/extract] when records were extracted. *)
Definition found_response (req : EmailRequest.t) (found stored : nat) : Dict :=
  [ ("message", VStr "Emails extracted and stored successfully");
    ("emails_found", VInt (Z.of_nat found));
    ("emails_stored", VInt (Z.of_nat stored));
    ("senders_processed", VStrList (EmailRequest.sender_addresses req)) ].

(** Two runs that end alike and print the same log. *)
Definition same_logs {A} (x y : Outcome A * State * list Event) : Prop :=
  fst x = fst y /\ log_output (snd x) = log_output (snd y).

(** The world [w] with another clock. *)
Definition with_clock (w : World) (clock : nat -> Z) : World :=
  {| now_utc := clock;
     imap_login := imap_login w;
     imap_fetch := imap_fetch w;
     imap_logout := imap_logout w;
     groq_create := groq_create w;
     supabase_insert := supabase_insert w;
     supabase_select := supabase_select w |}.

(** A record without the time at which it was built. *)
Definition forget_extracted_at (c : EmailContent) : EmailContent :=
  {| subject := subject c; from_address := from_address c;
     to_address := to_address c; date := date c; text := text c;
     extracted_at := ""; summary := summary c |}.

(** Two states that differ at most in the [extracted_at] of their records. *)
Definition same_but_extracted_at (s1 s2 : State) : Prop :=
  clock_reads s1 = clock_reads s2 /\
  fetch_calls s1 = fetch_calls s2 /\
  chat_calls s1 = chat_calls s2 /\
  map forget_extracted_at (email_data s1)
  = map forget_extracted_at (email_data s2).

(** ** A sample world

    A mailbox, a chat API and a store on which the theorems are run: the
    clock shows 2026-11-04T12:00:00 UTC at the first reading and a second
    more at each later one; the first search yields four messages (a recent
    one, one whose body cannot be decoded, one of the day before the cutoff
    hour, one with an HTML body only); the chat API answers the first call
    and times out afterwards; the store refuses the first insert. *)

Definition str_Z (z : Z) : string := NilEmpty.string_of_int (Z.to_int z).

Definition sample_runtime : Runtime :=
  {| isoformat := fun d =>
       str_Z (naive d) ++
       match tzinfo d with Some o => "+" ++ str_Z o | None => "" end;
     str_datetime := fun d =>
       str_Z (naive d) ++
       match tzinfo d with Some o => " +" ++ str_Z o | None => "" end;
     str_http := fun c d =>
       str_Z c ++ ": " ++
       match d with
       | DetailStr m => m
       | DetailDict l => join ", " (map (fun kv => fst kv ++ "=" ++ snd kv) l)
       end |}.

Definition hour : Z := 3600000000%Z.

(** 2026-11-04T12:00:00 *)
Definition noon : Z := 63929390400000000%Z.

Definition msg_recent : Msg.t :=
  {| Msg.date := Return {| naive := noon - 2 * hour; tzinfo := utc |};
     Msg.subject := Return "Invoice";
     Msg.from_ := Return "a@x.com";
     Msg.to := Return ["me@y.com"];
     Msg.text := Return "hello";
     Msg.html := Return "<p>hello</p>" |}.

Definition msg_undecodable : Msg.t :=
  {| Msg.date := Return {| naive := noon - 1 * hour; tzinfo := utc |};
     Msg.subject := Return "Broken";
     Msg.from_ := Return "a@x.com";
     Msg.to := Return ["me@y.com"];
     Msg.text := Raise (Exception "unknown encoding: x-unknown");
     Msg.html := Return "" |}.

Definition msg_old : Msg.t :=
  {| Msg.date := Return {| naive := noon - 30 * hour; tzinfo := utc |};
     Msg.subject := Return "Yesterday morning";
     Msg.from_ := Return "a@x.com";
     Msg.to := Return ["me@y.com"];
     Msg.text := Return "old news";
     Msg.html := Return "" |}.

Definition msg_html_only : Msg.t :=
  {| Msg.date := Return {| naive := noon - 3 * hour; tzinfo := utc |};
     Msg.subject := Return "Newsletter";
     Msg.from_ := Return "a@x.com";
     Msg.to := Return ["me@y.com"; "you@y.com"];
     Msg.text := Return "";
     Msg.html := Return "<p>hi</p>" |}.

(** Sent one hour before noon UTC from a zone five hours behind UTC: the
    Date header reads 06:00:00 -0500. *)
Definition msg_new_york : Msg.t :=
  {| Msg.date := Return {| naive := noon - 6 * hour; tzinfo := Some (- 5 * hour)%Z |};
     Msg.subject := Return "From New York";
     Msg.from_ := Return "a@x.com";
     Msg.to := Return ["me@y.com"];
     Msg.text := Return "good morning";
     Msg.html := Return "" |}.

(** Sent twenty hours before noon UTC from the same zone: the Date header
    reads 11:00:00 -0500 of the day before. *)
Definition msg_new_york_yesterday : Msg.t :=
  {| Msg.date := Return {| naive := noon - 25 * hour; tzinfo := Some (- 5 * hour)%Z |};
     Msg.subject := Return "From New York, yesterday";
     Msg.from_ := Return "a@x.com";
     Msg.to := Return ["me@y.com"];
     Msg.text := Return "good evening";
     Msg.html := Return "" |}.

Definition row_a : EmailContent :=
  {| subject := "Invoice"; from_address := "a@x.com"; to_address := "me@y.com";
     date := "2026-11-04T10:00:00+00:00"; text := "hello";
     extracted_at := "2026-11-04T12:00:01+00:00";
     summary := Some "An invoice." |}.

Definition row_b : EmailContent :=
  {| subject := "Newsletter"; from_address := "a@x.com";
     to_address := "me@y.com, you@y.com";
     date := "2026-11-04T09:00:00+00:00"; text := "<p>hi</p>";
     extracted_at := "2026-11-04T12:00:02+00:00";
     summary := Some "Failed to generate summary" |}.

Definition sample_world : World :=
  {| now_utc := fun n => (noon + Z.of_nat n * 1000000)%Z;
     imap_login := fun _ pw =>
       if String.eqb pw "app-password" then None
       else Some (Exception "[AUTHENTICATIONFAILED] Invalid credentials (Failure)");
     imap_fetch := fun k _ _ =>
       match k with
       | O => ([msg_recent; msg_undecodable; msg_old; msg_html_only], None)
       | _ => ([], None)
       end;
     imap_logout := None;
     groq_create := fun n _ =>
       match n with
       | O => Return ["A short summary."]
       | _ => Raise (Exception "Request timed out.")
       end;
     supabase_insert := fun n _ =>
       match n with
       | O => Some (Exception "connection reset")
       | _ => None
       end;
     supabase_select := fun _ => Return [row_a; row_b] |}.

Definition initial_state : State := mkState 0 0 0 0 [] 0.

Definition sample_request : EmailRequest.t :=
  EmailRequest.mk "me@y.com" "app-password" ["a@x.com"].

(** What the extraction returns in the sample world. *)
Definition sample_records : list EmailContent :=
  Eval vm_compute in
    match fst (exec (extract_emails_from_inbox sample_runtime sample_world
                       "me@y.com" "app-password" ["a@x.com"]) initial_state) with
    | Return l => l
    | Raise _ => []
    end.


(** ** The rest of the module: start-up probe and what a run amounts to *)

(** The schema the start-up code prints, as the triple-quoted literal of the
    source has it. *)
Definition table_schema : string :=
"
    create table if not exists emails (
        id bigint generated by default as identity primary key,
        subject text,
        from_address text,
        to_address text,
        date timestamp with time zone,
        text text,
        summary text,
        extracted_at timestamp with time zone default timezone('utc'::text, now())
    );
    ".

(** The module-level try/except that runs when the module is imported.
    [probe] is the outcome of
    [supabase.table("emails").select("*").limit(1).execute()]. *)
Definition check_emails_table (rt : Runtime) (probe : Outcome unit) : M unit :=
  try_except
    (logger_info "Checking/Creating emails table in Supabase" ;;
     lift probe)
    (fun e =>
       logger_warning ("Emails table might not exist: " ++ str_exc rt e) ;;
       logger_info "Please create the following table in Supabase:" ;;
       logger_info table_schema).

(** A logger call. *)
Definition is_log (e : Event) : Prop :=
  match e with
  | Log _ _ => True
  | _ => False
  end.

(** What happens inside the mailbox session: logger calls, clock readings,
    searches and chat calls. *)
Definition session_event (e : Event) : Prop :=
  match e with
  | Log _ _ | Now | Fetch _ _ | ChatCreate _ => True
  | Login _ _ | Logout | Insert _ | Select _ => False
  end.

(** What [/emails] does to the outside. *)
Definition listing_event (e : Event) : Prop :=
  match e with
  | Log _ _ | Select _ => True
  | _ => False
  end.

Fixpoint chat_requests (t : list Event) : list ChatRequest :=
  match t with
  | [] => []
  | ChatCreate r :: t' => r :: chat_requests t'
  | _ :: t' => chat_requests t'
  end.

(** The fields of the messages of [ms] from which the loop body builds a
    record, in order. *)
Definition kept_fields (date_since : datetime) (ms : list Msg.t) : list Fields :=
  flat_map (fun m => match read_message date_since m with
                     | Return (Some f) => [f]
                     | _ => []
                     end) ms.

(** The messages the searches for [senders] yield, one search after the
    other, the first one being search number [k]. *)
Fixpoint yielded (w : World) (d : Z) (k : nat) (senders : list string)
  : list Msg.t :=
  match senders with
  | [] => []
  | sender :: rest => (fst (imap_fetch w k sender d) ++ yielded w d (S k) rest)%list
  end.

(** The records built from [fs], the first one with clock reading number
    [n] and chat call number [c]. *)
Fixpoint records_from (rt : Runtime) (w : World) (n c : nat) (fs : list Fields)
  : list EmailContent :=
  match fs with
  | [] => []
  | f :: fs' =>
      record_of rt w f (mkState n 0 c 0 [] 0) :: records_from rt w (S n) (S c) fs'
  end.

(** The user message of the chat request for [c], its body text left out:
    what comes before the body text, and what comes after. *)
Definition prompt_head (c : EmailContent) : string :=
  "Please provide a brief summary of this email:" ++ nl ++
  "Subject: " ++ subject c ++ nl ++
  "From: " ++ from_address c ++ nl ++
  "Date: " ++ date c ++ nl ++
  "Content: ".

Definition user_prompt (req : ChatRequest) : string :=
  match messages req with
  | [_; m] => content m
  | _ => EmptyString
  end.

(** The sample world with a store that cannot be reached. *)
Definition unreachable_store_world : World :=
  {| now_utc := now_utc sample_world;
     imap_login := imap_login sample_world;
     imap_fetch := imap_fetch sample_world;
     imap_logout := imap_logout sample_world;
     groq_create := groq_create sample_world;
     supabase_insert := fun _ _ => Some (Exception "connection refused");
     supabase_select := fun _ => Raise (Exception "connection refused") |}.


(** ** Facts about the monad *)

Section MonadFacts.

Context {A B : Type}.

Lemma exec_ret (a : A) s : exec (ret a) s = (Return a, s).
Proof. reflexivity. Qed.

Lemma exec_raise e s : exec (@raise A e) s = (Raise e, s).
Proof. reflexivity. Qed.

Lemma exec_lift (o : Outcome A) s : exec (lift o) s = (o, s).
Proof. reflexivity. Qed.

Lemma exec_gets (f : State -> A) s : exec (gets f) s = (Return (f s), s).
Proof. reflexivity. Qed.

Lemma exec_bind (m : M A) (k : A -> M B) s :
  exec (bind m k) s =
  match exec m s with
  | (Return a, s1) => exec (k a) s1
  | (Raise e, s1) => (Raise e, s1)
  end.
Proof.
  unfold exec, bind.
  destruct (m s) as [[[a | e] s1] t1]; simpl; trivial.
  destruct (k a s1) as [[r s2] t2]; reflexivity.
Qed.

Lemma trace_bind (m : M A) (k : A -> M B) s :
  trace (bind m k) s =
  match exec m s with
  | (Return a, s1) => (trace m s ++ trace (k a) s1)%list
  | (Raise e, _) => trace m s
  end.
Proof.
  unfold exec, trace, bind.
  destruct (m s) as [[[a | e] s1] t1]; simpl; trivial.
  destruct (k a s1) as [[r s2] t2]; reflexivity.
Qed.

Lemma exec_try_except (m : M A) (h : Exc -> M A) s :
  exec (try_except m h) s =
  match exec m s with
  | (Return a, s1) => (Return a, s1)
  | (Raise e, s1) => exec (h e) s1
  end.
Proof.
  unfold exec, try_except.
  destruct (m s) as [[[a | e] s1] t1]; simpl; trivial.
  destruct (h e s1) as [[r s2] t2]; reflexivity.
Qed.

Lemma trace_try_except (m : M A) (h : Exc -> M A) s :
  trace (try_except m h) s =
  match exec m s with
  | (Return _, _) => trace m s
  | (Raise e, s1) => (trace m s ++ trace (h e) s1)%list
  end.
Proof.
  unfold exec, trace, try_except.
  destruct (m s) as [[[a | e] s1] t1]; simpl; trivial.
  destruct (h e s1) as [[r s2] t2]; reflexivity.
Qed.

Lemma exec_with_exit (body : M A) (exit : M unit) s :
  exec (with_exit body exit) s =
  match exec exit (snd (exec body s)) with
  | (Return _, s2) => (fst (exec body s), s2)
  | (Raise e, s2) => (Raise e, s2)
  end.
Proof.
  unfold exec, with_exit.
  destruct (body s) as [[r s1] t1]; simpl.
  destruct (exit s1) as [[[u | e] s2] t2]; reflexivity.
Qed.

Lemma trace_with_exit (body : M A) (exit : M unit) s :
  trace (with_exit body exit) s =
  (trace body s ++ trace exit (snd (exec body s)))%list.
Proof.
  unfold exec, trace, with_exit.
  destruct (body s) as [[r s1] t1]; simpl.
  destruct (exit s1) as [[[u | e] s2] t2]; reflexivity.
Qed.

End MonadFacts.

Lemma exec_emit e s : exec (emit e) s = (Return tt, s).
Proof. reflexivity. Qed.

Lemma exec_modify f s : exec (modify f) s = (Return tt, f s).
Proof. reflexivity. Qed.

(** A loop whose body never raises runs to its end, and folds the body's
    effect on the state. *)
Lemma exec_for_each {A} (body : A -> M unit) (step : State -> A -> State) :
  (forall x s, exec (body x) s = (Return tt, step s x)) ->
  forall l s, exec (for_each l body) s = (Return tt, fold_left step l s).
Proof.
  intros Hbody l; induction l as [| x l IH]; intros s; simpl.
  - reflexivity.
  - rewrite exec_bind, Hbody. apply IH.
Qed.

(** Every event of a loop is an event of one of the runs of its body. *)
Lemma trace_for_each {A} (P : Event -> Prop) (body : A -> M unit) :
  (forall x s, Forall P (trace (body x) s)) ->
  forall l s, Forall P (trace (for_each l body) s).
Proof.
  intros Hbody l; induction l as [| x l IH]; intros s; simpl.
  - constructor.
  - rewrite trace_bind.
    destruct (exec (body x) s) as [[[] | e] s1] eqn:E.
    + apply Forall_app; split; [apply Hbody | apply IH].
    + apply Hbody.
Qed.

(** ** The program computes its denotation *)

Ltac exec_step :=
  first [ rewrite exec_bind | rewrite exec_try_except | rewrite exec_with_exit
        | rewrite exec_lift | rewrite exec_ret | rewrite exec_raise
        | rewrite exec_emit | rewrite exec_modify | rewrite exec_gets ];
  cbv beta iota.

Ltac exec_run :=
  unfold logger_debug, logger_info, logger_warning, logger_error;
  repeat exec_step.

Section PipelineFacts.

Variable rt : Runtime.
Variable w : World.

Lemma exec_datetime_now_utc s :
  exec (datetime_now_utc w) s =
  (Return {| naive := now_utc w (clock_reads s); tzinfo := utc |}, tick_clock s).
Proof. reflexivity. Qed.

Lemma exec_chat_completions_create req s :
  exec (chat_completions_create w req) s =
  (groq_create w (chat_calls s) req, tick_chat s).
Proof. reflexivity. Qed.

Lemma exec_mailbox_fetch sender d s :
  exec (mailbox_fetch w sender d) s =
  (Return (imap_fetch w (fetch_calls s) sender d), tick_fetch s).
Proof. reflexivity. Qed.

Lemma exec_summarize_single_email c s :
  exec (summarize_single_email rt w c) s =
  (Return (summary_of (groq_create w (chat_calls s) (summary_request c))),
   tick_chat s).
Proof.
  unfold summarize_single_email. exec_run.
  rewrite exec_chat_completions_create.
  destruct (groq_create w (chat_calls s) (summary_request c)) as [[| c0 l] | e];
    exec_run; reflexivity.
Qed.

Lemma exec_process_message date_since msg s :
  exec (process_message rt w date_since msg) s =
  (Return tt, message_step rt w date_since s msg).
Proof.
  unfold process_message, message_step, read_message.
  exec_run.
  destruct (Msg.date msg) as [d | e]; cbn [and_then]; exec_run; [| reflexivity].
  destruct (datetime_ge (replace_tzinfo d utc) date_since) as [[|] | e];
    cbn [and_then]; exec_run; try reflexivity.
  destruct (Msg.subject msg) as [sb | e]; cbn [and_then]; exec_run; [| reflexivity].
  destruct (Msg.from_ msg) as [fr | e]; cbn [and_then]; exec_run; [| reflexivity].
  destruct (Msg.to msg) as [tos | e]; cbn [and_then]; exec_run; [| reflexivity].
  destruct (Msg.text msg) as [tx | e]; cbn [and_then]; exec_run; [| reflexivity].
  destruct (truthy tx); cbn [and_then]; exec_run.
  - rewrite exec_datetime_now_utc; cbv beta iota zeta. exec_run.
    rewrite exec_summarize_single_email; cbv beta iota. exec_run. reflexivity.
  - destruct (Msg.html msg) as [h | e]; cbn [and_then]; exec_run;
      [| reflexivity].
    rewrite exec_datetime_now_utc; cbv beta iota zeta. exec_run.
    rewrite exec_summarize_single_email; cbv beta iota. exec_run. reflexivity.
Qed.

Lemma exec_messages date_since msgs s :
  exec (for_each msgs (process_message rt w date_since)) s =
  (Return tt, fold_left (message_step rt w date_since) msgs s).
Proof. apply exec_for_each. intros; apply exec_process_message. Qed.

Lemma exec_senders date_since senders : forall s,
  exec (for_each senders (process_sender rt w date_since)) s =
  senders_run rt w date_since senders s.
Proof.
  induction senders as [| sender rest IH]; intros s; simpl.
  - reflexivity.
  - rewrite exec_bind. unfold process_sender at 1, for_gen.
    exec_run. rewrite exec_mailbox_fetch. cbv beta iota.
    exec_run. rewrite exec_messages. cbv beta iota.
    destruct (snd (imap_fetch w (fetch_calls s) sender
                              (datetime_date date_since))) as [e |];
      exec_run; [reflexivity | apply IH].
Qed.

Lemma exec_mailbox_login address pw s :
  exec (mailbox_login w address pw) s =
  (match imap_login w address pw with
   | None => Return tt
   | Some e => Raise e
   end, s).
Proof. reflexivity. Qed.

Lemma exec_mailbox_logout s :
  exec (mailbox_logout w) s =
  (match imap_logout w with
   | None => Return tt
   | Some e => Raise e
   end, s).
Proof. reflexivity. Qed.

Lemma exec_extract_emails_from_inbox address pw senders s :
  exec (extract_emails_from_inbox rt w address pw senders) s =
  extract_run rt w address pw senders s.
Proof.
  unfold extract_emails_from_inbox, extract_run.
  exec_run. rewrite exec_datetime_now_utc. cbv beta iota zeta.
  exec_run. rewrite exec_mailbox_login.
  change (clock_reads (set_email_data [] s)) with (clock_reads s).
  fold (cutoff w s).
  destruct (imap_login w address pw) as [e |]; cbv beta iota.
  - exec_run. reflexivity.
  - exec_run. rewrite exec_senders.
    destruct (senders_run rt w (cutoff w s) senders
                          (tick_clock (set_email_data [] s))) as [[[] | e] s1];
      cbn [fst snd]; rewrite exec_mailbox_logout;
      destruct (imap_logout w) as [e' |]; exec_run; reflexivity.
Qed.

(** *** The events of a run *)

Lemma Forall_trace_bind {A B} (P : Event -> Prop) (m : M A) (k : A -> M B) s :
  Forall P (trace m s) ->
  (forall a s1, exec m s = (Return a, s1) -> Forall P (trace (k a) s1)) ->
  Forall P (trace (bind m k) s).
Proof.
  intros Hm Hk. rewrite trace_bind.
  destruct (exec m s) as [[a | e] s1] eqn:E; trivial.
  apply Forall_app; split; [assumption | apply Hk; reflexivity].
Qed.

Lemma Forall_trace_try_except {A} (P : Event -> Prop) (m : M A) h s :
  Forall P (trace m s) ->
  (forall e s1, exec m s = (Raise e, s1) -> Forall P (trace (h e) s1)) ->
  Forall P (trace (try_except m h) s).
Proof.
  intros Hm Hh. rewrite trace_try_except.
  destruct (exec m s) as [[a | e] s1] eqn:E; trivial.
  apply Forall_app; split; [assumption | apply Hh; reflexivity].
Qed.

Lemma Forall_trace_with_exit {A} (P : Event -> Prop) (body : M A) exit s :
  Forall P (trace body s) ->
  (forall s1, Forall P (trace exit s1)) ->
  Forall P (trace (with_exit body exit) s).
Proof.
  intros Hb He. rewrite trace_with_exit. apply Forall_app; split; auto.
Qed.

Lemma Forall_trace_for_gen {A} (P : Event -> Prop) g (body : A -> M unit) s :
  (forall x s1, Forall P (trace (body x) s1)) ->
  Forall P (trace (for_gen g body) s).
Proof.
  intros Hbody. unfold for_gen. apply Forall_trace_bind.
  - apply trace_for_each, Hbody.
  - intros _ s1 _. destruct (snd g); constructor.
Qed.

Ltac trace_step :=
  first [ apply Forall_trace_bind; [| intros ? ? ?]
        | apply Forall_trace_try_except; [| intros ? ? ?]
        | solve [repeat constructor]
        | match goal with
          | |- Forall _ (trace (if ?b then _ else _) _) => destruct b
          | |- Forall _ (trace (match ?x with _ => _ end) _) => destruct x
          end ].

Lemma trace_summarize_single_email d c s :
  Forall (inbox_event d) (trace (summarize_single_email rt w c) s).
Proof. unfold summarize_single_email. repeat trace_step. Qed.

Lemma trace_process_message d date_since msg s :
  Forall (inbox_event d) (trace (process_message rt w date_since msg) s).
Proof.
  unfold process_message.
  repeat first [ trace_step | apply trace_summarize_single_email ].
Qed.

Lemma trace_process_sender date_since sender s :
  Forall (inbox_event (datetime_date date_since))
         (trace (process_sender rt w date_since sender) s).
Proof.
  unfold process_sender, for_gen. repeat trace_step.
  apply trace_for_each. intros; apply trace_process_message.
Qed.

Lemma trace_extract_emails_from_inbox address pw senders s :
  Forall (inbox_event (datetime_date (cutoff w s)))
         (trace (extract_emails_from_inbox rt w address pw senders) s).
Proof.
  unfold extract_emails_from_inbox.
  apply Forall_trace_bind; [repeat constructor |].
  intros [] s0 H0. rewrite exec_modify in H0. inversion H0; subst s0; clear H0.
  apply Forall_trace_try_except; [| intros; repeat trace_step].
  apply Forall_trace_bind; [repeat constructor |].
  intros [] s1 H1. unfold logger_info in H1. rewrite exec_emit in H1.
  inversion H1; subst s1; clear H1.
  apply Forall_trace_bind; [repeat constructor |].
  intros now s2 H2. rewrite exec_datetime_now_utc in H2.
  inversion H2; subst now s2; clear H2.
  change (clock_reads (set_email_data [] s)) with (clock_reads s).
  fold (cutoff w s).
  repeat trace_step.
  apply Forall_trace_with_exit; [| intros; repeat constructor].
  repeat trace_step.
  apply trace_for_each. intros; apply trace_process_sender.
Qed.

(** *** Where the records come from *)

Lemma read_message_Some date_since msg f :
  read_message date_since msg = Return (Some f) ->
  exists d t,
    Msg.date msg = Return d /\
    f_date f = replace_tzinfo d utc /\
    datetime_ge (replace_tzinfo d utc) date_since = Return true /\
    Msg.subject msg = Return (f_subject f) /\
    Msg.from_ msg = Return (f_from f) /\
    Msg.to msg = Return (f_to f) /\
    Msg.text msg = Return t /\
    (if truthy t then f_body f = t else Msg.html msg = Return (f_body f)).
Proof.
  unfold read_message.
  destruct (Msg.date msg) as [d | e]; cbn [and_then]; [| discriminate].
  destruct (datetime_ge (replace_tzinfo d utc) date_since) as [[|] | e] eqn:Ege;
    cbn [and_then]; try discriminate.
  destruct (Msg.subject msg) as [sb | e]; cbn [and_then]; [| discriminate].
  destruct (Msg.from_ msg) as [fr | e]; cbn [and_then]; [| discriminate].
  destruct (Msg.to msg) as [tos | e]; cbn [and_then]; [| discriminate].
  destruct (Msg.text msg) as [tx | e]; cbn [and_then]; [| discriminate].
  destruct (truthy tx) eqn:Etx; cbn [and_then].
  - intros H; inversion H; subst f; clear H. exists d, tx.
    rewrite Etx. repeat split; solve [reflexivity | exact Ege].
  - destruct (Msg.html msg) as [h | e]; cbn [and_then]; [| discriminate].
    intros H; inversion H; subst f; clear H. exists d, tx.
    rewrite Etx. repeat split; solve [reflexivity | exact Ege].
Qed.

Lemma messages_invariant (I : State -> Prop) date_since (l : list Msg.t) :
  (forall s m, In m l -> I s -> I (message_step rt w date_since s m)) ->
  forall s, I s -> I (fold_left (message_step rt w date_since) l s).
Proof.
  induction l as [| m l IH]; intros Hstep s Hs; simpl.
  - assumption.
  - apply IH.
    + intros s' m' Hin. apply Hstep. right; assumption.
    + apply Hstep; [left; reflexivity | assumption].
Qed.

Lemma senders_run_invariant (I : State -> Prop) date_since :
  (forall s, I s -> I (tick_fetch s)) ->
  (forall s m, fetched w (datetime_date date_since) m -> I s ->
               I (message_step rt w date_since s m)) ->
  forall senders s, I s -> I (snd (senders_run rt w date_since senders s)).
Proof.
  intros Htick Hstep senders.
  induction senders as [| sender rest IH]; intros s Hs; simpl.
  - assumption.
  - assert (Hfold : I (fold_left (message_step rt w date_since)
                         (fst (imap_fetch w (fetch_calls s) sender
                                          (datetime_date date_since)))
                         (tick_fetch s))).
    { apply messages_invariant; [| apply Htick; assumption].
      intros s' m Hin. apply Hstep. exists (fetch_calls s), sender. exact Hin. }
    destruct (snd (imap_fetch w (fetch_calls s) sender
                              (datetime_date date_since))) as [e |].
    + exact Hfold.
    + apply IH. exact Hfold.
Qed.

(** What [extract_emails_from_inbox] returns is the [email_data] of the
    state in which it ends. *)
Lemma extract_run_Return address pw senders s records :
  fst (extract_run rt w address pw senders s) = Return records ->
  imap_login w address pw = None /\
  records = email_data (snd (senders_run rt w (cutoff w s) senders
                                         (tick_clock (set_email_data [] s)))).
Proof.
  unfold extract_run.
  destruct (imap_login w address pw) as [e |]; [discriminate |].
  destruct (senders_run rt w (cutoff w s) senders
                        (tick_clock (set_email_data [] s))) as [o s1].
  destruct (imap_logout w) as [e' |]; [discriminate |].
  destruct o as [[] | e]; [| discriminate].
  cbn. intros H; inversion H. split; reflexivity.
Qed.

(** Every record returned was built from a message that one of the searches
    of the run yielded and that passed the filter. *)
Lemma extract_provenance address pw senders s records :
  fst (exec (extract_emails_from_inbox rt w address pw senders) s)
  = Return records ->
  Forall (fun r => exists m f st,
            fetched w (datetime_date (cutoff w s)) m /\
            read_message (cutoff w s) m = Return (Some f) /\
            r = record_of rt w f st) records.
Proof.
  rewrite exec_extract_emails_from_inbox. intros H.
  apply extract_run_Return in H as [_ ->].
  apply (senders_run_invariant
           (fun st => Forall (fun r => exists m f st',
                        fetched w (datetime_date (cutoff w s)) m /\
                        read_message (cutoff w s) m = Return (Some f) /\
                        r = record_of rt w f st') (email_data st))).
  - intros st Hst. exact Hst.
  - intros st m Hm Hst. unfold message_step.
    destruct (read_message (cutoff w s) m) as [[f |] | e] eqn:E; trivial.
    cbn. apply Forall_app; split; [assumption |].
    constructor; [| constructor]. exists m, f, st. auto.
  - constructor.
Qed.

(** C1: every record that [extract_emails_from_inbox] returns carries the
    date of a fetched message, relabelled UTC, which is at or after the
    cutoff of the run, the first clock reading minus 24 hours; and a message
    whose normalized date is earlier than the cutoff is skipped: the loop
    body returns normally, leaves the state (so [email_data]) as it was,
    calls nothing outside and prints nothing, its two logger calls being at
    DEBUG level. *)
Theorem extracted_records_not_older_than_cutoff
        address pw senders s records :
  fst (exec (extract_emails_from_inbox rt w address pw senders) s)
  = Return records ->
  Forall (fun r => exists m d0 d,
            fetched w (datetime_date (cutoff w s)) m /\
            Msg.date m = Return d0 /\ d = replace_tzinfo d0 utc /\
            date r = isoformat rt d /\ tzinfo d = utc /\
            (now_utc w (clock_reads s) - 86400000000 <= naive d)%Z) records
  /\
  (forall msg d st,
      Msg.date msg = Return d ->
      (naive d < now_utc w (clock_reads s) - 86400000000)%Z ->
      exec (process_message rt w (cutoff w s) msg) st = (Return tt, st) /\
      trace (process_message rt w (cutoff w s) msg) st =
      [ Log DEBUG ("Message date: " ++ str_datetime rt (replace_tzinfo d utc)
                   ++ ", Comparing with: " ++ str_datetime rt (cutoff w s));
        Log DEBUG ("Skipping email from "
                   ++ str_datetime rt (replace_tzinfo d utc)
                   ++ " as it's older than " ++ str_datetime rt (cutoff w s)) ]
      /\
      log_output (trace (process_message rt w (cutoff w s) msg) st) = []).
Proof.
  intros H. split.
  - apply extract_provenance in H.
    eapply Forall_impl; [| exact H].
    intros r (m & f & st & Hm & Hread & ->).
    apply read_message_Some in Hread
      as (d & t & Hdate & Hd & Hge & _).
    exists m, d, (replace_tzinfo d utc). cbn. rewrite Hd.
    repeat split; try assumption.
    unfold datetime_ge, cutoff in Hge. cbn in Hge.
    inversion Hge as [Hle]. apply Z.leb_le in Hle.
    unfold timedelta_days, microseconds_per_day in Hle. lia.
  - intros msg d st Hd Hlt.
    assert (Hge : datetime_ge (replace_tzinfo d utc) (cutoff w s)
                  = Return false).
    { unfold datetime_ge, cutoff; cbn. f_equal. apply Z.leb_gt.
      unfold timedelta_days, microseconds_per_day. lia. }
    assert (Htrace : trace (process_message rt w (cutoff w s) msg) st =
      [ Log DEBUG ("Message date: " ++ str_datetime rt (replace_tzinfo d utc)
                   ++ ", Comparing with: " ++ str_datetime rt (cutoff w s));
        Log DEBUG ("Skipping email from "
                   ++ str_datetime rt (replace_tzinfo d utc)
                   ++ " as it's older than " ++ str_datetime rt (cutoff w s)) ]).
    { unfold process_message, trace, try_except, bind, lift, logger_debug, emit.
      rewrite Hd. cbv beta iota. rewrite Hge. reflexivity. }
    split; [| split].
    + rewrite exec_process_message. unfold message_step, read_message.
      rewrite Hd; cbn [and_then]. rewrite Hge; reflexivity.
    + exact Htrace.
    + rewrite Htrace. reflexivity.
Qed.


(** C4: [summarize_single_email] returns for every input and in every state,
    it never raises.  When the call to the chat API fails for a message
    (the call raises, or the response has no choice), the summary is the
    sentinel, the record is appended with the sentinel as its [summary], the
    loop goes on with the messages that follow, and the store loop attempts
    the insertion of a record whatever its summary is. *)
Theorem summarize_failure_is_contained date_since msg f rest s :
  let now := {| naive := now_utc w (clock_reads s); tzinfo := utc |} in
  let c := content_of rt f now in
  read_message date_since msg = Return (Some f) ->
  (exists e, groq_create w (chat_calls s) (summary_request c) = Raise e) \/
  groq_create w (chat_calls s) (summary_request c) = Return [] ->
  (forall c' s', exists r, exec (summarize_single_email rt w c') s'
                           = (Return r, tick_chat s')) /\
  exec (summarize_single_email rt w c) (tick_clock s)
  = (Return "Failed to generate summary", tick_chat (tick_clock s)) /\
  exec (process_message rt w date_since msg) s
  = (Return tt,
     set_email_data
       (email_data s ++ [set_summary c "Failed to generate summary"])%list
       (tick_chat (tick_clock s))) /\
  exec (for_each (msg :: rest) (process_message rt w date_since)) s
  = exec (for_each rest (process_message rt w date_since))
         (set_email_data
            (email_data s ++ [set_summary c "Failed to generate summary"])%list
            (tick_chat (tick_clock s))) /\
  (forall row st, exists t, trace (store_email rt w row) st = Insert row :: t).
Proof.
  intros now c Hread Hfail.
  assert (Hsum : summary_of (groq_create w (chat_calls s) (summary_request c))
                 = "Failed to generate summary").
  { destruct Hfail as [[e ->] | ->]; reflexivity. }
  assert (Hstep : exec (process_message rt w date_since msg) s
    = (Return tt,
       set_email_data
         (email_data s ++ [set_summary c "Failed to generate summary"])%list
         (tick_chat (tick_clock s)))).
  { rewrite exec_process_message. unfold message_step. rewrite Hread.
    unfold record_of. fold now. fold c. rewrite Hsum. reflexivity. }
  repeat split.
  - intros c' s'. eexists. apply exec_summarize_single_email.
  - rewrite exec_summarize_single_email.
    change (chat_calls (tick_clock s)) with (chat_calls s).
    rewrite Hsum. reflexivity.
  - exact Hstep.
  - cbn [for_each]. rewrite exec_bind, Hstep. reflexivity.
  - intros row st. unfold store_email, table_insert.
    unfold trace, try_except, bind.
    destruct (supabase_insert w (insert_calls st) row); eexists; reflexivity.
Qed.

(** *** The endpoints *)

Lemma log_output_app t1 t2 :
  log_output (t1 ++ t2) = (log_output t1 ++ log_output t2)%list.
Proof.
  induction t1 as [| e t1 IH]; simpl; trivial.
  destruct e; trivial. destruct (enabled lvl); simpl; rewrite IH; reflexivity.
Qed.

Lemma inserts_app t1 t2 : inserts (t1 ++ t2) = (inserts t1 ++ inserts t2)%list.
Proof.
  induction t1 as [| e t1 IH]; simpl; trivial.
  destruct e; trivial. simpl; rewrite IH; reflexivity.
Qed.

Lemma inserts_inbox d t : Forall (inbox_event d) t -> inserts t = [].
Proof.
  induction 1 as [| e t He _ IH]; simpl; trivial.
  destruct e; trivial. contradiction.
Qed.

Lemma exec_store_email row s :
  exec (store_email rt w row) s = (Return tt, store_step w s row).
Proof.
  unfold store_email, store_step. exec_run.
  change (exec (table_insert w row) s)
    with (match supabase_insert w (insert_calls s) row with
          | None => Return tt
          | Some e => Raise e
          end, tick_insert s).
  destruct (supabase_insert w (insert_calls s) row); exec_run; reflexivity.
Qed.

Lemma inserts_store_email row s :
  inserts (trace (store_email rt w row) s) = [row].
Proof.
  unfold store_email, table_insert, trace, try_except, bind.
  destruct (supabase_insert w (insert_calls s) row); reflexivity.
Qed.

Lemma inserts_store_loop rows : forall s,
  inserts (trace (for_each rows (store_email rt w)) s) = rows.
Proof.
  induction rows as [| r rows IH]; intros s; simpl; trivial.
  rewrite trace_bind, exec_store_email, inserts_app, inserts_store_email, IH.
  reflexivity.
Qed.

Lemma store_loop_counts rows : forall s,
  stored_count (fold_left (store_step w) rows s)
  = stored_count s + List.length (stored_rows w (insert_calls s) rows) /\
  insert_calls (fold_left (store_step w) rows s)
  = insert_calls s + List.length rows.
Proof.
  induction rows as [| r rows IH]; intros s; simpl.
  - split; lia.
  - destruct (IH (store_step w s r)) as [IH1 IH2]. rewrite IH1, IH2.
    unfold store_step.
    destruct (supabase_insert w (insert_calls s) r); simpl; split; lia.
Qed.

Lemma stored_rows_length rows : forall n,
  List.length (stored_rows w n rows) <= List.length rows.
Proof.
  induction rows as [| r rows IH]; intros n; simpl; trivial.
  destruct (supabase_insert w n r); simpl; specialize (IH (S n)); lia.
Qed.

Lemma run_store_loop rows s :
  for_each rows (store_email rt w) s =
  (Return tt, fold_left (store_step w) rows s,
   trace (for_each rows (store_email rt w)) s).
Proof.
  pose proof (exec_for_each _ (store_step w) exec_store_email rows s) as H.
  unfold exec, trace in *.
  destruct (for_each rows (store_email rt w) s) as [[o s'] t]. cbn in *.
  inversion H; reflexivity.
Qed.

Lemma extract_from_email_found req s r rows s1 t1 :
  extract_emails_from_inbox rt w (EmailRequest.email_address req)
    (EmailRequest.password req) (EmailRequest.sender_addresses req) s
  = (Return (r :: rows), s1, t1) ->
  let s2 := fold_left (store_step w) (r :: rows) (set_stored_count 0 s1) in
  extract_from_email rt w req s =
  (Return (found_response req (List.length (r :: rows)) (stored_count s2)), s2,
   Log INFO ("Starting email extraction for: " ++ EmailRequest.email_address req)
   :: t1 ++ Log INFO "Storing emails in Supabase"
   :: trace (for_each (r :: rows) (store_email rt w)) (set_stored_count 0 s1)
   ++ [])%list.
Proof.
  intros H s2.
  unfold extract_from_email, try_except, bind, logger_info, emit.
  rewrite H. unfold modify. rewrite run_store_loop. reflexivity.
Qed.

Lemma extract_from_email_none req s s1 t1 :
  extract_emails_from_inbox rt w (EmailRequest.email_address req)
    (EmailRequest.password req) (EmailRequest.sender_addresses req) s
  = (Return [], s1, t1) ->
  extract_from_email rt w req s =
  (Return [ ("message", VStr no_emails_message);
            ("senders_processed",
             VStrList (EmailRequest.sender_addresses req)) ], s1,
   Log INFO ("Starting email extraction for: " ++ EmailRequest.email_address req)
   :: t1 ++ [Log WARNING no_emails_message])%list.
Proof.
  intros H.
  unfold extract_from_email, try_except, bind, logger_info, logger_warning, emit.
  rewrite H. reflexivity.
Qed.

Lemma run_eta {A} (m : M A) s :
  m s = (fst (exec m s), snd (exec m s), trace m s).
Proof. unfold exec, trace. destruct (m s) as [[o s'] t]; reflexivity. Qed.

Lemma extract_from_email_raise req s e s1 t1 :
  extract_emails_from_inbox rt w (EmailRequest.email_address req)
    (EmailRequest.password req) (EmailRequest.sender_addresses req) s
  = (Raise e, s1, t1) ->
  exists e', fst (exec (extract_from_email rt w req) s) = Raise e'.
Proof.
  intros H. unfold exec.
  unfold extract_from_email, try_except, bind, logger_info, logger_error, emit.
  rewrite H. destruct e; eexists; reflexivity.
Qed.

Lemma extract_run_insert_calls address pw senders s :
  insert_calls (snd (extract_run rt w address pw senders s)) = insert_calls s.
Proof.
  unfold extract_run.
  assert (H : insert_calls
                (snd (senders_run rt w (cutoff w s) senders
                                  (tick_clock (set_email_data [] s))))
              = insert_calls s).
  { apply (senders_run_invariant (fun st => insert_calls st = insert_calls s)).
    - intros st Hst. exact Hst.
    - intros st m _ Hst. unfold message_step.
      destruct (read_message (cutoff w s) m) as [[f |] | e]; assumption.
    - reflexivity. }
  destruct (imap_login w address pw); [reflexivity |].
  destruct (senders_run rt w (cutoff w s) senders
                        (tick_clock (set_email_data [] s))) as [o s1].
  cbn [snd] in H.
  destruct (imap_logout w), o; exact H.
Qed.

(** With no sender to look for, a session that opens and closes yields no
    record. *)
Lemma extract_zero_senders address pw s :
  imap_login w address pw = None ->
  imap_logout w = None ->
  exec (extract_emails_from_inbox rt w address pw []) s
  = (Return [], tick_clock (set_email_data [] s)).
Proof.
  intros Hin Hout. rewrite exec_extract_emails_from_inbox.
  unfold extract_run. rewrite Hin. cbn [senders_run]. rewrite Hout.
  reflexivity.
Qed.

(** C6: when the extraction returned records, [/extract] answers with the
    success response whatever the inserts do; the inserts attempted are
    exactly the records extracted, in order, so a failed insert does not
    stop the next one: the loop body returns normally and only leaves the
    counter as it was; [emails_stored] is the number of inserts that
    succeeded and [emails_found] the number of records.  In every success
    response that carries both counts, [emails_stored <= emails_found]. *)
Theorem insert_failures_are_skipped req s :
  let extraction :=
    extract_emails_from_inbox rt w (EmailRequest.email_address req)
      (EmailRequest.password req) (EmailRequest.sender_addresses req) in
  (forall r rows s1,
      exec extraction s = (Return (r :: rows), s1) ->
      let stored := List.length (stored_rows w (insert_calls s1) (r :: rows)) in
      fst (exec (extract_from_email rt w req) s)
      = Return [ ("message", VStr "Emails extracted and stored successfully");
                 ("emails_found", VInt (Z.of_nat (List.length (r :: rows))));
                 ("emails_stored", VInt (Z.of_nat stored));
                 ("senders_processed",
                  VStrList (EmailRequest.sender_addresses req)) ] /\
      inserts (trace (extract_from_email rt w req) s) = r :: rows /\
      stored <= List.length (r :: rows)) /\
  (forall row st e,
      supabase_insert w (insert_calls st) row = Some e ->
      exec (store_email rt w row) st = (Return tt, tick_insert st)) /\
  (forall resp found stored,
      fst (exec (extract_from_email rt w req) s) = Return resp ->
      get "emails_found" resp = Some (VInt found) ->
      get "emails_stored" resp = Some (VInt stored) ->
      (stored <= found)%Z).
Proof.
  intros extraction.
  assert (Hfound : forall r rows s1,
    exec extraction s = (Return (r :: rows), s1) ->
    fst (exec (extract_from_email rt w req) s)
    = Return (found_response req (List.length (r :: rows))
                (List.length (stored_rows w (insert_calls s1) (r :: rows)))) /\
    inserts (trace (extract_from_email rt w req) s) = r :: rows).
  { intros r rows s1 H.
    pose proof (run_eta extraction s) as Hrun. rewrite H in Hrun.
    cbn [fst snd] in Hrun.
    pose proof (trace_extract_emails_from_inbox
                  (EmailRequest.email_address req) (EmailRequest.password req)
                  (EmailRequest.sender_addresses req) s) as Hev.
    apply inserts_inbox in Hev. fold extraction in Hev.
    apply extract_from_email_found in Hrun.
    unfold exec, trace. rewrite Hrun. cbn [fst snd]. split.
    - destruct (store_loop_counts (r :: rows) (set_stored_count 0 s1))
        as [Hc _].
      rewrite Hc. reflexivity.
    - cbn [inserts]. rewrite inserts_app, Hev. cbn [inserts app].
      rewrite app_nil_r. apply inserts_store_loop. }
  split; [| split].
  - intros r rows s1 H stored.
    destruct (Hfound r rows s1 H) as [Hresp Hins].
    split; [exact Hresp | split; [exact Hins | apply stored_rows_length]].
  - intros row st e He. rewrite exec_store_email. unfold store_step.
    rewrite He. reflexivity.
  - intros resp found stored Hresp Hf Hs.
    pose proof (run_eta extraction s) as Hrun.
    destruct (exec extraction s) as [[[| r rows] | e] s1] eqn:E;
      cbn [fst snd] in Hrun.
    + apply extract_from_email_none in Hrun.
      unfold exec in Hresp. rewrite Hrun in Hresp. cbn [fst] in Hresp.
      injection Hresp as <-. discriminate Hf.
    + destruct (Hfound r rows s1 eq_refl) as [Hresp' _].
      rewrite Hresp' in Hresp. injection Hresp as <-.
      change (Some (VInt (Z.of_nat (List.length (r :: rows))))
              = Some (VInt found)) in Hf.
      change (Some (VInt (Z.of_nat (List.length
                (stored_rows w (insert_calls s1) (r :: rows)))))
              = Some (VInt stored)) in Hs.
      assert (Ef : found = Z.of_nat (List.length (r :: rows)))
        by congruence.
      assert (Es : stored = Z.of_nat (List.length
                     (stored_rows w (insert_calls s1) (r :: rows))))
        by congruence.
      rewrite Ef, Es. apply -> Nat2Z.inj_le. apply stored_rows_length.
    + apply extract_from_email_raise in Hrun as [e' He'].
      rewrite He' in Hresp. discriminate.
Qed.

(** C7: a request without senders, when the session opens and closes, makes
    the extraction return the empty list; and whenever the extraction
    returns the empty list, [/extract] succeeds with the no-emails message
    and [senders_processed], the sender list of the request, without an
    [emails_found] key, and has attempted no insert. *)
Theorem no_emails_response req s :
  let extraction :=
    extract_emails_from_inbox rt w (EmailRequest.email_address req)
      (EmailRequest.password req) (EmailRequest.sender_addresses req) in
  (EmailRequest.sender_addresses req = [] ->
   imap_login w (EmailRequest.email_address req) (EmailRequest.password req)
   = None ->
   imap_logout w = None ->
   fst (exec extraction s) = Return []) /\
  (fst (exec extraction s) = Return [] ->
   exists resp,
     fst (exec (extract_from_email rt w req) s) = Return resp /\
     resp = [ ("message",
               VStr "No emails found in the last 24 hours from specified senders");
              ("senders_processed",
               VStrList (EmailRequest.sender_addresses req)) ] /\
     get "emails_found" resp = None /\
     get "senders_processed" resp
     = Some (VStrList (EmailRequest.sender_addresses req)) /\
     inserts (trace (extract_from_email rt w req) s) = [] /\
     insert_calls (snd (exec (extract_from_email rt w req) s))
     = insert_calls s).
Proof.
  intros extraction. split.
  - intros Hs Hin Hout. unfold extraction. rewrite Hs.
    rewrite extract_zero_senders by assumption. reflexivity.
  - intros H.
    pose proof (run_eta extraction s) as Hrun. rewrite H in Hrun.
    pose proof (trace_extract_emails_from_inbox
                  (EmailRequest.email_address req) (EmailRequest.password req)
                  (EmailRequest.sender_addresses req) s) as Hev.
    apply inserts_inbox in Hev. fold extraction in Hev.
    pose proof (extract_run_insert_calls
                  (EmailRequest.email_address req) (EmailRequest.password req)
                  (EmailRequest.sender_addresses req) s) as Hic.
    rewrite <- exec_extract_emails_from_inbox in Hic. fold extraction in Hic.
    apply extract_from_email_none in Hrun.
    eexists. unfold exec, trace. rewrite Hrun. cbn [fst snd].
    repeat split.
    + cbn [inserts]. rewrite inserts_app, Hev. reflexivity.
    + exact Hic.
Qed.



(** *** The password and the log *)

Lemma same_logs_refl {A} (x : Outcome A * State * list Event) : same_logs x x.
Proof. split; reflexivity. Qed.

Lemma same_logs_bind {A B} (m1 m2 : M A) (k1 k2 : A -> M B) s :
  same_logs (m1 s) (m2 s) ->
  (forall a s', same_logs (k1 a s') (k2 a s')) ->
  same_logs (bind m1 k1 s) (bind m2 k2 s).
Proof.
  unfold same_logs, bind. intros [Hr Hl] Hk.
  destruct (m1 s) as [[o1 s1] t1], (m2 s) as [[o2 s2] t2].
  cbn [fst snd] in Hr, Hl. inversion Hr; subst o2 s2; clear Hr.
  destruct o1 as [a | e]; [| split; [reflexivity | exact Hl]].
  specialize (Hk a s1).
  destruct (k1 a s1) as [[r1 s1'] t1'], (k2 a s1) as [[r2 s2'] t2'].
  cbn [fst snd] in *. destruct Hk as [Hr' Hl'].
  split; [exact Hr' |]. rewrite !log_output_app, Hl, Hl'. reflexivity.
Qed.

Lemma same_logs_try_except {A} (m1 m2 : M A) (h1 h2 : Exc -> M A) s :
  same_logs (m1 s) (m2 s) ->
  (forall e s', same_logs (h1 e s') (h2 e s')) ->
  same_logs (try_except m1 h1 s) (try_except m2 h2 s).
Proof.
  unfold same_logs, try_except. intros [Hr Hl] Hh.
  destruct (m1 s) as [[o1 s1] t1], (m2 s) as [[o2 s2] t2].
  cbn [fst snd] in Hr, Hl. inversion Hr; subst o2 s2; clear Hr.
  destruct o1 as [a | e]; [split; [reflexivity | exact Hl] |].
  specialize (Hh e s1).
  destruct (h1 e s1) as [[r1 s1'] t1'], (h2 e s1) as [[r2 s2'] t2'].
  cbn [fst snd] in *. destruct Hh as [Hr' Hl'].
  split; [exact Hr' |]. rewrite !log_output_app, Hl, Hl'. reflexivity.
Qed.

Lemma same_logs_mailbox_login address p1 p2 s :
  imap_login w address p1 = imap_login w address p2 ->
  same_logs (mailbox_login w address p1 s) (mailbox_login w address p2 s).
Proof.
  intros H. unfold same_logs, mailbox_login. rewrite H. split; reflexivity.
Qed.

Ltac same_logs_step :=
  first [ apply same_logs_refl
        | apply same_logs_mailbox_login; assumption
        | apply same_logs_bind; [| intros ? ?]
        | apply same_logs_try_except; [| intros ? ?] ].

Lemma same_logs_extract_emails_from_inbox address p1 p2 senders s :
  imap_login w address p1 = imap_login w address p2 ->
  same_logs (extract_emails_from_inbox rt w address p1 senders s)
            (extract_emails_from_inbox rt w address p2 senders s).
Proof.
  intros H. unfold extract_emails_from_inbox. repeat same_logs_step.
Qed.

(** C9, as amended: the password reaches the IMAP login and nothing else,
    so two requests that differ in the password only, and whose logins the
    mailbox answers alike, end alike and print the same log. *)
Theorem log_depends_on_password_through_login_only address p1 p2 senders s :
  imap_login w address p1 = imap_login w address p2 ->
  log_output (trace (extract_from_email rt w
                       (EmailRequest.mk address p1 senders)) s)
  = log_output (trace (extract_from_email rt w
                         (EmailRequest.mk address p2 senders)) s) /\
  exec (extract_from_email rt w (EmailRequest.mk address p1 senders)) s
  = exec (extract_from_email rt w (EmailRequest.mk address p2 senders)) s.
Proof.
  intros H.
  assert (Hsame : same_logs
            (extract_from_email rt w (EmailRequest.mk address p1 senders) s)
            (extract_from_email rt w (EmailRequest.mk address p2 senders) s)).
  { unfold extract_from_email. cbn [EmailRequest.email_address
      EmailRequest.password EmailRequest.sender_addresses].
    apply same_logs_try_except; [| intros; apply same_logs_refl].
    apply same_logs_bind; [apply same_logs_refl | intros [] s'].
    apply same_logs_bind; [| intros; apply same_logs_refl].
    apply same_logs_extract_emails_from_inbox, H. }
  destruct Hsame as [Hr Hl]. split; [exact Hl | exact Hr].
Qed.

End PipelineFacts.

(** ** Two worlds *)

Section TwoWorlds.

Variable rt : Runtime.
Variables w1 w2 : World.
Variable R : State -> State -> Prop.
Variable date_since : datetime.

Hypothesis same_session :
  forall sender s1 s2, R s1 s2 ->
    let g1 := imap_fetch w1 (fetch_calls s1) sender (datetime_date date_since) in
    let g2 := imap_fetch w2 (fetch_calls s2) sender (datetime_date date_since) in
    snd g1 = snd g2 /\
    R (fold_left (message_step rt w1 date_since) (fst g1) (tick_fetch s1))
      (fold_left (message_step rt w2 date_since) (fst g2) (tick_fetch s2)).

Lemma senders_run_related senders : forall s1 s2,
  R s1 s2 ->
  fst (senders_run rt w1 date_since senders s1)
  = fst (senders_run rt w2 date_since senders s2) /\
  R (snd (senders_run rt w1 date_since senders s1))
    (snd (senders_run rt w2 date_since senders s2)).
Proof.
  induction senders as [| sender rest IH]; intros s1 s2 HR; simpl.
  - split; [reflexivity | exact HR].
  - destruct (same_session sender s1 s2 HR) as [Hsnd Hfold].
    rewrite Hsnd.
    destruct (snd (imap_fetch w2 (fetch_calls s2) sender
                              (datetime_date date_since))) as [e |].
    + split; [reflexivity | exact Hfold].
    + apply IH, Hfold.
Qed.

End TwoWorlds.

(** *** A message that fails, and the world without it *)

Section FailingMessage.

Variable rt : Runtime.
Variable w : World.




End FailingMessage.


(** *** The clock after the first reading *)

Section LaterClock.

Variable rt : Runtime.
Variable w : World.
Variable clock' : nat -> Z.

Lemma summary_request_extracted_at f now now' :
  summary_request (content_of rt f now') = summary_request (content_of rt f now).
Proof. reflexivity. Qed.

Lemma message_step_later_clock date_since s1 s2 m :
  same_but_extracted_at s1 s2 ->
  same_but_extracted_at (message_step rt w date_since s1 m)
                        (message_step rt (with_clock w clock') date_since s2 m).
Proof.
  intros (Hc & Hf & Hch & Hd). unfold message_step.
  destruct (read_message date_since m) as [[f |] | e];
    [| repeat split; assumption ..].
  repeat split; cbn [clock_reads fetch_calls chat_calls email_data
                     set_email_data tick_chat tick_clock]; try congruence.
  rewrite !map_app, Hd. f_equal. cbn [map]. f_equal.
  unfold record_of.
  rewrite (summary_request_extracted_at f
             {| naive := now_utc w (clock_reads s1); tzinfo := utc |}
             {| naive := now_utc (with_clock w clock') (clock_reads s2);
                tzinfo := utc |}).
  change (groq_create (with_clock w clock')) with (groq_create w).
  rewrite Hch. reflexivity.
Qed.

Lemma messages_later_clock date_since l : forall s1 s2,
  same_but_extracted_at s1 s2 ->
  same_but_extracted_at
    (fold_left (message_step rt w date_since) l s1)
    (fold_left (message_step rt (with_clock w clock') date_since) l s2).
Proof.
  induction l as [| m l IH]; intros s1 s2 H; simpl; [exact H |].
  apply IH, message_step_later_clock, H.
Qed.

Lemma extract_run_later_clock address pw senders s :
  clock' (clock_reads s) = now_utc w (clock_reads s) ->
  match fst (extract_run rt w address pw senders s),
        fst (extract_run rt (with_clock w clock') address pw senders s) with
  | Return records, Return records' =>
      map forget_extracted_at records' = map forget_extracted_at records
  | Raise e, Raise e' => e' = e
  | _, _ => False
  end.
Proof.
  intros Hclock. unfold extract_run.
  change (imap_login (with_clock w clock')) with (imap_login w).
  change (imap_logout (with_clock w clock')) with (imap_logout w).
  assert (Hcut : cutoff (with_clock w clock') s = cutoff w s).
  { unfold cutoff. cbn [now_utc with_clock]. rewrite Hclock. reflexivity. }
  rewrite Hcut.
  destruct (imap_login w address pw) as [e |]; [reflexivity |].
  destruct (senders_run_related rt w (with_clock w clock')
              same_but_extracted_at (cutoff w s))
    with (senders := senders)
         (s1 := tick_clock (set_email_data [] s))
         (s2 := tick_clock (set_email_data [] s)) as [Hfst Hsnd].
  - intros sender s1 s2 HR. cbn [imap_fetch with_clock].
    destruct HR as (Hc & Hf & Hch & Hd). rewrite Hf. split; [reflexivity |].
    apply messages_later_clock.
    repeat split; cbn [clock_reads fetch_calls chat_calls email_data tick_fetch];
      congruence.
  - repeat split; reflexivity.
  - destruct (senders_run rt w (cutoff w s) senders
                          (tick_clock (set_email_data [] s))) as [o1 s1],
             (senders_run rt (with_clock w clock') (cutoff w s) senders
                          (tick_clock (set_email_data [] s))) as [o2 s2].
    cbn [fst snd] in Hfst, Hsnd. subst o2.
    destruct Hsnd as (_ & _ & _ & Hd).
    destruct (imap_logout w) as [e |]; [reflexivity |].
    destruct o1 as [[] | e]; cbn [fst]; [symmetry; exact Hd | reflexivity].
Qed.

End LaterClock.

Lemma trace_bind_prefix {A B} (m : M A) (k : A -> M B) s :
  exists t, trace (bind m k) s = (trace m s ++ t)%list.
Proof.
  rewrite trace_bind. destruct (exec m s) as [[a | e] s1].
  - eexists; reflexivity.
  - exists []. rewrite app_nil_r. reflexivity.
Qed.

Lemma trace_try_except_prefix {A} (m : M A) h s :
  exists t, trace (try_except m h) s = (trace m s ++ t)%list.
Proof.
  rewrite trace_try_except. destruct (exec m s) as [[a | e] s1].
  - exists []. rewrite app_nil_r. reflexivity.
  - eexists; reflexivity.
Qed.

Lemma trace_extract_prefix rt w address pw senders s :
  exists t,
    trace (extract_emails_from_inbox rt w address pw senders) s
    = Log INFO ("Attempting to connect to Gmail IMAP for: " ++ address)
      :: Now :: Login address pw :: t.
Proof.
  unfold extract_emails_from_inbox.
  rewrite trace_bind, exec_modify. cbn [trace modify snd app].
  match goal with
  | |- context [trace (try_except ?m ?h) ?s0] =>
      destruct (trace_try_except_prefix m h s0) as [t1 H1];
      rewrite H1; clear H1
  end.
  rewrite trace_bind. unfold logger_info at 1. rewrite exec_emit.
  rewrite trace_bind, exec_datetime_now_utc. cbv zeta.
  match goal with
  | |- context [trace (bind (mailbox_login ?w ?a ?p) ?k) ?s0] =>
      destruct (trace_bind_prefix (mailbox_login w a p) k s0) as [t2 H2];
      rewrite H2; clear H2
  end.
  eexists. reflexivity.
Qed.

(** C10: the clock is read, and the cutoff computed from that reading,
    before the session is opened: the run starts with its first log line,
    the reading of the clock and the login.  Every search of the run asks
    for the messages since the calendar day of that cutoff, and every
    record returned comes from a message whose date passed the comparison
    with that cutoff.  The later readings of the clock decide nothing:
    with any other clock that agrees on the first reading, the run fails
    alike or returns the same records up to their [extracted_at]. *)
Theorem cutoff_is_fixed_for_the_run rt w clock' address pw senders s :
  clock' (clock_reads s) = now_utc w (clock_reads s) ->
  cutoff w s
  = datetime_sub {| naive := now_utc w (clock_reads s); tzinfo := utc |}
                 (timedelta_days 1) /\
  (exists t,
      trace (extract_emails_from_inbox rt w address pw senders) s
      = Log INFO ("Attempting to connect to Gmail IMAP for: " ++ address)
        :: Now :: Login address pw :: t) /\
  Forall (inbox_event (datetime_date (cutoff w s)))
         (trace (extract_emails_from_inbox rt w address pw senders) s) /\
  (forall records,
      fst (exec (extract_emails_from_inbox rt w address pw senders) s)
      = Return records ->
      Forall (fun r => exists m d,
                fetched w (datetime_date (cutoff w s)) m /\
                Msg.date m = Return d /\
                date r = isoformat rt (replace_tzinfo d utc) /\
                datetime_ge (replace_tzinfo d utc) (cutoff w s) = Return true)
             records) /\
  match fst (exec (extract_emails_from_inbox rt w address pw senders) s),
        fst (exec (extract_emails_from_inbox rt (with_clock w clock')
                     address pw senders) s) with
  | Return records, Return records' =>
      map forget_extracted_at records' = map forget_extracted_at records
  | Raise e, Raise e' => e' = e
  | _, _ => False
  end.
Proof.
  intros Hclock. split; [reflexivity |].
  split; [apply trace_extract_prefix |].
  split; [apply trace_extract_emails_from_inbox |].
  split.
  - intros records H. apply extract_provenance in H.
    eapply Forall_impl; [| exact H].
    intros r (m & f & st & Hm & Hread & ->).
    apply read_message_Some in Hread as (d & t & Hd & Hfd & Hge & _).
    exists m, d. cbn [date record_of set_summary content_of]. rewrite Hfd.
    repeat split; assumption.
  - rewrite !exec_extract_emails_from_inbox.
    apply extract_run_later_clock, Hclock.
Qed.

(** *** The date of a message with a UTC offset *)

(** [replace(tzinfo=utc)] keeps the clock fields: the result denotes the
    instant of the original date moved by its UTC offset. *)
Lemma replace_tzinfo_utc_instant d o :
  tzinfo d = Some o ->
  instant d = Some (naive d - o)%Z /\
  instant (replace_tzinfo d utc) = Some (naive d) /\
  (instant (replace_tzinfo d utc) = instant d <-> o = 0%Z).
Proof.
  intros H. unfold instant, replace_tzinfo, utc. cbn [tzinfo naive]. rewrite H.
  split; [reflexivity | split; [f_equal; lia | split]].
  - intros E. assert (naive d - 0 = naive d - o)%Z by congruence. lia.
  - intros ->. reflexivity.
Qed.

(** C2, where the code departs from the claim: the message sent at 11:00
    UTC with the Date header 06:00:00 -0500 is recorded with the date
    06:00:00 UTC, which is timezone-aware and five hours before the instant
    of the message; and the message sent twenty hours before the run, with
    the Date header 11:00:00 -0500, is taken for one of twenty-five hours
    before and skipped. *)
Theorem offset_date_is_relabelled_not_converted :
  let date_since := cutoff sample_world initial_state in
  let original := {| naive := noon - 6 * hour; tzinfo := Some (- 5 * hour)%Z |} in
  let recorded := replace_tzinfo original utc in
  Msg.date msg_new_york = Return original /\
  (exists r,
      email_data (snd (exec (process_message sample_runtime sample_world
                               date_since msg_new_york) initial_state)) = [r] /\
      date r = isoformat sample_runtime recorded) /\
  tzinfo recorded = utc /\
  instant original = Some (noon - 1 * hour)%Z /\
  instant recorded = Some (noon - 6 * hour)%Z /\
  instant recorded <> instant original /\
  Msg.date msg_new_york_yesterday
  = Return {| naive := noon - 25 * hour; tzinfo := Some (- 5 * hour)%Z |} /\
  instant {| naive := noon - 25 * hour; tzinfo := Some (- 5 * hour)%Z |}
  = Some (noon - 20 * hour)%Z /\
  instant date_since = Some (noon - 24 * hour)%Z /\
  exec (process_message sample_runtime sample_world date_since
          msg_new_york_yesterday) initial_state
  = (Return tt, initial_state).
Proof.
  cbv zeta. repeat split; try (vm_compute; reflexivity).
  - eexists. split; vm_compute; reflexivity.
  - vm_compute. discriminate.
Qed.

(** ** The theorems at work on the sample world *)

Lemma extracted_records_not_older_than_cutoff_witness :
  fst (exec (extract_emails_from_inbox sample_runtime sample_world
               "me@y.com" "app-password" ["a@x.com"]) initial_state)
  = Return sample_records /\
  Forall (fun r => exists m d0 d,
            fetched sample_world
                    (datetime_date (cutoff sample_world initial_state)) m /\
            Msg.date m = Return d0 /\ d = replace_tzinfo d0 utc /\
            date r = isoformat sample_runtime d /\ tzinfo d = utc /\
            (now_utc sample_world 0 - 86400000000 <= naive d)%Z)
         sample_records.
Proof.
  split; [vm_compute; reflexivity |].
  apply (extracted_records_not_older_than_cutoff sample_runtime sample_world
           "me@y.com" "app-password" ["a@x.com"] initial_state sample_records).
  vm_compute; reflexivity.
Defined.


Lemma summarize_failure_is_contained_witness :
  let date_since := cutoff sample_world initial_state in
  let f := mkFields "Newsletter" "a@x.com" ["me@y.com"; "you@y.com"]
                    {| naive := noon - 3 * hour; tzinfo := utc |} "<p>hi</p>" in
  let s := mkState 1 1 1 0 [] 0 in
  let c := content_of sample_runtime f
             {| naive := now_utc sample_world 1; tzinfo := utc |} in
  read_message date_since msg_html_only = Return (Some f) /\
  groq_create sample_world 1 (summary_request c)
  = Raise (Exception "Request timed out.") /\
  exec (process_message sample_runtime sample_world date_since msg_html_only) s
  = (Return tt,
     set_email_data [set_summary c "Failed to generate summary"]
                    (tick_chat (tick_clock s))).
Proof.
  intros date_since f s c.
  assert (HA : read_message date_since msg_html_only = Return (Some f))
    by (vm_compute; reflexivity).
  assert (HB : groq_create sample_world 1 (summary_request c)
               = Raise (Exception "Request timed out."))
    by (vm_compute; reflexivity).
  split; [exact HA | split; [exact HB |]].
  destruct (summarize_failure_is_contained sample_runtime sample_world
              date_since msg_html_only f [msg_old] s HA
              (or_introl (ex_intro _ (Exception "Request timed out.") HB)))
    as (_ & _ & H & _).
  exact H.
Defined.


Lemma insert_failures_are_skipped_witness :
  supabase_insert sample_world 0 (hd row_a sample_records)
  = Some (Exception "connection reset") /\
  fst (exec (extract_from_email sample_runtime sample_world sample_request)
            initial_state)
  = Return [ ("message", VStr "Emails extracted and stored successfully");
             ("emails_found", VInt 2);
             ("emails_stored", VInt 1);
             ("senders_processed", VStrList ["a@x.com"]) ] /\
  inserts (trace (extract_from_email sample_runtime sample_world sample_request)
                 initial_state)
  = sample_records.
Proof.
  split; [reflexivity |].
  destruct (insert_failures_are_skipped sample_runtime sample_world
              sample_request initial_state) as (H & _ & _).
  destruct (H (hd row_a sample_records) (tl sample_records)
              (snd (exec (extract_emails_from_inbox sample_runtime sample_world
                            "me@y.com" "app-password" ["a@x.com"])
                         initial_state)))
    as (Hresp & Hins & _).
  - vm_compute; reflexivity.
  - split; [exact Hresp | exact Hins].
Defined.

Lemma no_emails_response_witness :
  let req := EmailRequest.mk "me@y.com" "app-password" [] in
  exists resp,
    fst (exec (extract_from_email sample_runtime sample_world req) initial_state)
    = Return resp /\
    resp = [ ("message",
              VStr "No emails found in the last 24 hours from specified senders");
             ("senders_processed", VStrList []) ] /\
    get "emails_found" resp = None /\
    get "senders_processed" resp = Some (VStrList []) /\
    inserts (trace (extract_from_email sample_runtime sample_world req)
                   initial_state) = [] /\
    insert_calls (snd (exec (extract_from_email sample_runtime sample_world req)
                            initial_state)) = 0.
Proof.
  intros req.
  destruct (no_emails_response sample_runtime sample_world req initial_state)
    as (HA & HB).
  apply HB, HA; reflexivity.
Defined.



Lemma log_depends_on_password_through_login_only_witness :
  imap_login sample_world "me@y.com" "letmein"
  = imap_login sample_world "me@y.com" "hunter2" /\
  log_output (trace (extract_from_email sample_runtime sample_world
                       (EmailRequest.mk "me@y.com" "letmein" ["a@x.com"]))
                    initial_state)
  = log_output (trace (extract_from_email sample_runtime sample_world
                         (EmailRequest.mk "me@y.com" "hunter2" ["a@x.com"]))
                      initial_state).
Proof.
  split; [reflexivity |].
  apply (log_depends_on_password_through_login_only sample_runtime sample_world
           "me@y.com" "letmein" "hunter2" ["a@x.com"] initial_state).
  reflexivity.
Defined.

(** C9 as the spec states it does not hold: the mailbox tells the right
    password from a wrong one, and the log tells which answer it gave. *)
Lemma log_differs_between_right_and_wrong_password :
  log_output (trace (extract_from_email sample_runtime sample_world
                       (EmailRequest.mk "me@y.com" "app-password" ["a@x.com"]))
                    initial_state)
  <> log_output (trace (extract_from_email sample_runtime sample_world
                          (EmailRequest.mk "me@y.com" "wrong" ["a@x.com"]))
                       initial_state).
Proof. vm_compute. discriminate. Qed.

Lemma cutoff_is_fixed_for_the_run_witness :
  let clock' := fun n => (noon + Z.of_nat n * (30 * hour))%Z in
  clock' 0 = now_utc sample_world 0 /\
  match fst (exec (extract_emails_from_inbox sample_runtime sample_world
                     "me@y.com" "app-password" ["a@x.com"]) initial_state),
        fst (exec (extract_emails_from_inbox sample_runtime
                     (with_clock sample_world clock')
                     "me@y.com" "app-password" ["a@x.com"]) initial_state) with
  | Return records, Return records' =>
      map forget_extracted_at records' = map forget_extracted_at records
  | Raise e, Raise e' => e' = e
  | _, _ => False
  end.
Proof.
  intros clock'. split; [reflexivity |].
  apply (cutoff_is_fixed_for_the_run sample_runtime sample_world clock'
           "me@y.com" "app-password" ["a@x.com"] initial_state).
  reflexivity.
Defined.

(** ** Further properties of the pipeline *)

Section RunContents.

Variable rt : Runtime.
Variable w : World.

Lemma records_from_app n c fs1 : forall fs2,
  records_from rt w n c (fs1 ++ fs2)
  = (records_from rt w n c fs1
     ++ records_from rt w (n + List.length fs1) (c + List.length fs1) fs2)%list.
Proof.
  revert n c. induction fs1 as [| f fs1 IH]; intros n c fs2; simpl.
  - rewrite !Nat.add_0_r. reflexivity.
  - rewrite IH, !Nat.add_succ_r. reflexivity.
Qed.

Lemma records_from_length fs : forall n c,
  List.length (records_from rt w n c fs) = List.length fs.
Proof. induction fs as [| f fs IH]; intros n c; simpl; auto. Qed.

Lemma kept_fields_app date_since ms1 ms2 :
  kept_fields date_since (ms1 ++ ms2)
  = (kept_fields date_since ms1 ++ kept_fields date_since ms2)%list.
Proof. unfold kept_fields. apply flat_map_app. Qed.

Lemma kept_fields_cons date_since m ms :
  kept_fields date_since (m :: ms)
  = match read_message date_since m with
    | Return (Some f) => f :: kept_fields date_since ms
    | _ => kept_fields date_since ms
    end.
Proof.
  unfold kept_fields. cbn [flat_map].
  destruct (read_message date_since m) as [[f |] | e]; reflexivity.
Qed.

(** What a loop over messages leaves in the state. *)
Lemma messages_contents date_since ms : forall st,
  let st' := fold_left (message_step rt w date_since) ms st in
  email_data st'
  = (email_data st
     ++ records_from rt w (clock_reads st) (chat_calls st)
                     (kept_fields date_since ms))%list /\
  clock_reads st' = clock_reads st + List.length (kept_fields date_since ms) /\
  chat_calls st' = chat_calls st + List.length (kept_fields date_since ms) /\
  fetch_calls st' = fetch_calls st /\
  insert_calls st' = insert_calls st.
Proof.
  induction ms as [| m ms IH]; intros st; cbn zeta.
  - cbn. rewrite app_nil_r. repeat split; lia.
  - change (fold_left (message_step rt w date_since) (m :: ms) st)
      with (fold_left (message_step rt w date_since) ms
                      (message_step rt w date_since st m)).
    destruct (IH (message_step rt w date_since st m))
      as (Hd & Hc & Hch & Hf & Hi).
    rewrite Hd, Hc, Hch, Hf, Hi. clear IH Hd Hc Hch Hf Hi.
    rewrite (kept_fields_cons date_since m ms). unfold message_step.
    destruct (read_message date_since m) as [[f |] | e]; cbn [app List.length];
      try (repeat split; reflexivity).
    cbn [email_data clock_reads chat_calls fetch_calls insert_calls
         set_email_data tick_chat tick_clock records_from].
    rewrite <- app_assoc. cbn [app].
    repeat split; try lia.
Qed.

(** What a loop over senders leaves in the state when no search fails. *)
Lemma senders_contents date_since senders : forall st,
  fst (senders_run rt w date_since senders st) = Return tt ->
  let st' := snd (senders_run rt w date_since senders st) in
  let fs := kept_fields date_since
              (yielded w (datetime_date date_since) (fetch_calls st) senders) in
  email_data st'
  = (email_data st
     ++ records_from rt w (clock_reads st) (chat_calls st) fs)%list /\
  clock_reads st' = clock_reads st + List.length fs /\
  chat_calls st' = chat_calls st + List.length fs /\
  fetch_calls st' = fetch_calls st + List.length senders /\
  insert_calls st' = insert_calls st.
Proof.
  induction senders as [| sender rest IH]; intros st H; cbn zeta.
  - cbn. rewrite app_nil_r. repeat split; lia.
  - cbn [senders_run yielded] in *.
    destruct (messages_contents date_since
                (fst (imap_fetch w (fetch_calls st) sender
                                 (datetime_date date_since)))
                (tick_fetch st)) as (Hd & Hc & Hch & Hf & Hi).
    cbn [email_data clock_reads chat_calls fetch_calls insert_calls tick_fetch]
      in Hd, Hc, Hch, Hf, Hi.
    destruct (snd (imap_fetch w (fetch_calls st) sender
                              (datetime_date date_since))) as [e |];
      [discriminate H |].
    destruct (IH _ H) as (Hd' & Hc' & Hch' & Hf' & Hi').
    rewrite Hd', Hc', Hch', Hf', Hi', Hd, Hc, Hch, Hf, Hi.
    rewrite kept_fields_app, records_from_app, length_app.
    rewrite <- app_assoc. cbn [List.length].
    repeat split; lia.
Qed.

End RunContents.

Section RunFacts.

Variable rt : Runtime.
Variable w : World.

Lemma extract_run_success address pw senders s records s' :
  extract_run rt w address pw senders s = (Return records, s') ->
  imap_login w address pw = None /\
  imap_logout w = None /\
  senders_run rt w (cutoff w s) senders (tick_clock (set_email_data [] s))
  = (Return tt, s') /\
  records = email_data s'.
Proof.
  unfold extract_run.
  destruct (imap_login w address pw) as [e |]; [discriminate |].
  destruct (senders_run rt w (cutoff w s) senders
                        (tick_clock (set_email_data [] s))) as [o s1].
  destruct (imap_logout w) as [e' |]; [discriminate |].
  destruct o as [[] | e]; [| discriminate].
  intros H; injection H as <- <-. repeat split; reflexivity.
Qed.

Lemma senders_run_Raise date_since senders : forall st e,
  fst (senders_run rt w date_since senders st) = Raise e ->
  exists k sender,
    snd (imap_fetch w k sender (datetime_date date_since)) = Some e.
Proof.
  induction senders as [| sender rest IH]; intros st e; cbn [senders_run].
  - discriminate.
  - destruct (snd (imap_fetch w (fetch_calls st) sender
                              (datetime_date date_since))) as [e0 |] eqn:E.
    + cbn. intros H; injection H as <-.
      exists (fetch_calls st), sender. exact E.
    + apply IH.
Qed.

(** X1: the records [extract_emails_from_inbox] returns are exactly the
    records of the messages its searches yield that can be read and pass
    the filter, in the order of the senders and, for one sender, of the
    messages; none is lost, none comes twice unless a search yields it
    twice.  The i-th record carries the clock reading and the answer of the
    chat call that follow those of the record before it. *)
Theorem extraction_returns_kept_messages_in_order
        address pw senders s records :
  fst (exec (extract_emails_from_inbox rt w address pw senders) s)
  = Return records ->
  records
  = records_from rt w (S (clock_reads s)) (chat_calls s)
      (kept_fields (cutoff w s)
         (yielded w (datetime_date (cutoff w s)) (fetch_calls s) senders)).
Proof.
  rewrite exec_extract_emails_from_inbox.
  destruct (extract_run rt w address pw senders s) as [o s'] eqn:E.
  cbn [fst]. intros ->.
  apply extract_run_success in E as (_ & _ & Hrun & ->).
  pose proof (senders_contents rt w (cutoff w s) senders
                (tick_clock (set_email_data [] s))) as H.
  rewrite Hrun in H. destruct (H eq_refl) as (Hd & _). exact Hd.
Qed.

(** X2: a run that returns has made one search for each sender, one chat
    call and one clock reading for each record besides the reading of the
    cutoff, and no insert; the list it returns is the [email_data] it
    leaves. *)
Theorem calls_of_a_successful_run address pw senders s records s' :
  exec (extract_emails_from_inbox rt w address pw senders) s
  = (Return records, s') ->
  email_data s' = records /\
  fetch_calls s' = fetch_calls s + List.length senders /\
  chat_calls s' = chat_calls s + List.length records /\
  clock_reads s' = clock_reads s + 1 + List.length records /\
  insert_calls s' = insert_calls s.
Proof.
  rewrite exec_extract_emails_from_inbox. intros E.
  apply extract_run_success in E as (_ & _ & Hrun & ->).
  pose proof (senders_contents rt w (cutoff w s) senders
                (tick_clock (set_email_data [] s))) as H.
  rewrite Hrun in H. destruct (H eq_refl) as (Hd & Hc & Hch & Hf & Hi).
  cbn [fst snd email_data clock_reads chat_calls fetch_calls insert_calls
       tick_clock set_email_data app] in Hd, Hc, Hch, Hf, Hi.
  rewrite Hd, records_from_length.
  repeat split; lia.
Qed.

Lemma extract_raises_http_exception address pw senders s e :
  fst (exec (extract_emails_from_inbox rt w address pw senders) s) = Raise e ->
  exists c d, e = HTTPException c d.
Proof.
  rewrite exec_extract_emails_from_inbox. unfold extract_run, fetch_error.
  destruct (imap_login w address pw) as [e0 |].
  - cbn. intros H; injection H as <-. eexists _, _; reflexivity.
  - destruct (senders_run rt w (cutoff w s) senders
                          (tick_clock (set_email_data [] s))) as [o s1].
    destruct (imap_logout w) as [e1 |]; [| destruct o as [[] | e2]]; cbn;
      try discriminate; intros H; injection H as <-; eexists _, _; reflexivity.
Qed.

(** X3: when [extract_emails_from_inbox] raises, the exception is an
    [HTTPException] of status 500 whose detail names the mailbox address
    and carries the text of the cause; the cause is a failure of the login,
    of the logout or of one of the searches, never of a single message or
    of a summary. *)
Theorem mailbox_failure_is_reported address pw senders s e :
  fst (exec (extract_emails_from_inbox rt w address pw senders) s) = Raise e ->
  exists cause,
    e = HTTPException 500
          (DetailDict [ ("message", "Failed to fetch emails");
                        ("error", str_exc rt cause);
                        ("email", address) ]) /\
    (imap_login w address pw = Some cause \/
     imap_logout w = Some cause \/
     exists k sender,
       snd (imap_fetch w k sender (datetime_date (cutoff w s))) = Some cause).
Proof.
  rewrite exec_extract_emails_from_inbox. unfold extract_run.
  destruct (imap_login w address pw) as [e0 |] eqn:Elogin.
  - cbn. intros H; injection H as <-. exists e0. split; [reflexivity | auto].
  - destruct (senders_run rt w (cutoff w s) senders
                          (tick_clock (set_email_data [] s))) as [o s1] eqn:E.
    destruct (imap_logout w) as [e1 |] eqn:Elogout.
    + cbn. intros H; injection H as <-. exists e1. split; [reflexivity | auto].
    + destruct o as [[] | e2]; [discriminate |].
      cbn. intros H; injection H as <-. exists e2. split; [reflexivity |].
      right; right.
      apply (senders_run_Raise (cutoff w s) senders
               (tick_clock (set_email_data [] s))).
      rewrite E. reflexivity.
Qed.

(** X4: a login that the mailbox rejects ends the run at once: no search,
    no logout, no chat call; the run has logged the attempt, read the
    clock, tried the login, logged the failure, and raises the 500. *)
Theorem rejected_login_stops_the_run address pw senders s cause :
  imap_login w address pw = Some cause ->
  extract_emails_from_inbox rt w address pw senders s
  = (Raise (HTTPException 500
              (DetailDict [ ("message", "Failed to fetch emails");
                            ("error", str_exc rt cause);
                            ("email", address) ])),
     tick_clock (set_email_data [] s),
     [ Log INFO ("Attempting to connect to Gmail IMAP for: " ++ address);
       Now;
       Login address pw;
       Log ERROR ("Failed to fetch emails: " ++ str_exc rt cause) ]).
Proof.
  intros H.
  unfold extract_emails_from_inbox, try_except, bind, modify, logger_info,
    logger_error, emit, datetime_now_utc, mailbox_login, raise.
  rewrite H. reflexivity.
Qed.

Lemma extract_from_email_reraise req s c d s1 t1 :
  extract_emails_from_inbox rt w (EmailRequest.email_address req)
    (EmailRequest.password req) (EmailRequest.sender_addresses req) s
  = (Raise (HTTPException c d), s1, t1) ->
  extract_from_email rt w req s
  = (Raise (HTTPException c d), s1,
     Log INFO ("Starting email extraction for: "
               ++ EmailRequest.email_address req)
     :: t1 ++ [Log ERROR ("Error in extract_from_email: "
                          ++ str_exc rt (HTTPException c d))])%list.
Proof.
  intros H.
  unfold extract_from_email, try_except, bind, logger_info, logger_error, emit,
    raise.
  rewrite H. reflexivity.
Qed.

(** X5: [/extract] hands a failure of the extraction on as it is: the same
    [HTTPException], not a second one wrapped around it; it has then
    attempted no insert, and has logged the failure. *)
Theorem extract_passes_mailbox_failure_on req s e :
  fst (exec (extract_emails_from_inbox rt w (EmailRequest.email_address req)
               (EmailRequest.password req) (EmailRequest.sender_addresses req))
            s) = Raise e ->
  fst (exec (extract_from_email rt w req) s) = Raise e /\
  inserts (trace (extract_from_email rt w req) s) = [] /\
  insert_calls (snd (exec (extract_from_email rt w req) s)) = insert_calls s /\
  In (ERROR, "Error in extract_from_email: " ++ str_exc rt e)
     (log_output (trace (extract_from_email rt w req) s)).
Proof.
  intros H.
  destruct (extract_raises_http_exception _ _ _ _ _ H) as (c & d & He).
  pose proof (run_eta (extract_emails_from_inbox rt w
                         (EmailRequest.email_address req)
                         (EmailRequest.password req)
                         (EmailRequest.sender_addresses req)) s) as Hrun.
  rewrite H, He in Hrun.
  pose proof (trace_extract_emails_from_inbox rt w
                (EmailRequest.email_address req) (EmailRequest.password req)
                (EmailRequest.sender_addresses req) s) as Hev.
  apply inserts_inbox in Hev.
  pose proof (extract_run_insert_calls rt w
                (EmailRequest.email_address req) (EmailRequest.password req)
                (EmailRequest.sender_addresses req) s) as Hic.
  rewrite <- exec_extract_emails_from_inbox in Hic.
  apply extract_from_email_reraise in Hrun.
  unfold exec, trace. rewrite Hrun. cbn [fst snd]. rewrite He.
  split; [reflexivity | split; [| split]].
  - cbn [inserts]. rewrite inserts_app, Hev. reflexivity.
  - exact Hic.
  - cbn [log_output enabled]. right. rewrite log_output_app.
    apply in_or_app. right. left. reflexivity.
Qed.

End RunFacts.

(** *** The mailbox session *)

Lemma trace_bind_suffix {A B} (P : Event -> Prop) (m : M A) (k : A -> M B) s :
  (forall a s1, Forall P (trace (k a) s1)) ->
  exists t, trace (bind m k) s = (trace m s ++ t)%list /\ Forall P t.
Proof.
  intros Hk. rewrite trace_bind. destruct (exec m s) as [[a | e] s1].
  - eexists; split; [reflexivity | apply Hk].
  - exists []. rewrite app_nil_r. split; [reflexivity | constructor].
Qed.

Lemma trace_try_except_suffix {A} (P : Event -> Prop) (m : M A) h s :
  (forall e s1, Forall P (trace (h e) s1)) ->
  exists t, trace (try_except m h) s = (trace m s ++ t)%list /\ Forall P t.
Proof.
  intros Hh. rewrite trace_try_except. destruct (exec m s) as [[a | e] s1].
  - exists []. rewrite app_nil_r. split; [reflexivity | constructor].
  - eexists; split; [reflexivity | apply Hh].
Qed.

Ltac events_step :=
  first [ apply Forall_trace_bind; [| intros ? ? ?]
        | apply Forall_trace_try_except; [| intros ? ? ?]
        | solve [repeat constructor]
        | match goal with
          | |- Forall _ (trace (if ?b then _ else _) _) => destruct b
          | |- Forall _ (trace (match ?x with _ => _ end) _) => destruct x
          end ].

Section SessionFacts.

Variable rt : Runtime.
Variable w : World.

Lemma session_summarize_single_email c s :
  Forall session_event (trace (summarize_single_email rt w c) s).
Proof. unfold summarize_single_email. repeat events_step. Qed.

Lemma session_process_message date_since msg s :
  Forall session_event (trace (process_message rt w date_since msg) s).
Proof.
  unfold process_message.
  repeat first [ events_step | apply session_summarize_single_email ].
Qed.

Lemma session_process_sender date_since sender s :
  Forall session_event (trace (process_sender rt w date_since sender) s).
Proof.
  unfold process_sender, for_gen. repeat events_step.
  apply trace_for_each. intros; apply session_process_message.
Qed.

Lemma trace_logger_info msg s : trace (logger_info msg) s = [Log INFO msg].
Proof. reflexivity. Qed.

Lemma trace_datetime_now_utc s : trace (datetime_now_utc w) s = [Now].
Proof. reflexivity. Qed.

Lemma trace_mailbox_login address pw s :
  trace (mailbox_login w address pw) s = [Login address pw].
Proof. reflexivity. Qed.

Lemma trace_mailbox_logout s : trace (mailbox_logout w) s = [Logout].
Proof. reflexivity. Qed.

(** X6: once the login is accepted the session is closed exactly once,
    however the run ends: the trace of the run is the attempt, the clock
    reading and the login, then what happens inside the session (logger
    calls, clock readings, searches, chat calls), then the logout, then
    logger calls only.  No search and no chat call comes after the
    logout. *)
Theorem session_is_closed_once address pw senders s :
  imap_login w address pw = None ->
  exists inside after,
    trace (extract_emails_from_inbox rt w address pw senders) s
    = (Log INFO ("Attempting to connect to Gmail IMAP for: " ++ address)
       :: Now :: Login address pw :: inside ++ Logout :: after)%list /\
    Forall session_event inside /\
    Forall is_log after.
Proof.
  intros Hlogin. unfold extract_emails_from_inbox.
  rewrite trace_bind, exec_modify. cbn [trace modify snd app].
  match goal with
  | |- context [trace (try_except ?m ?h) ?s0] =>
      destruct (trace_try_except_suffix is_log m h s0) as (th & Hth & Hlogs);
      [ intros; repeat events_step | rewrite Hth; clear Hth ]
  end.
  rewrite trace_bind. unfold logger_info at 1. rewrite exec_emit.
  rewrite trace_bind, exec_datetime_now_utc. cbv zeta.
  rewrite trace_bind, exec_mailbox_login, Hlogin.
  match goal with
  | |- context [trace (bind (with_exit ?b ?l) ?k) ?s1] =>
      destruct (trace_bind_suffix is_log (with_exit b l) k s1)
        as (tr & Htr & Hlogs');
      [ intros; repeat events_step | rewrite Htr; clear Htr ];
      rewrite (trace_with_exit b l s1);
      exists (trace b s1), (tr ++ th)%list
  end.
  split; [| split].
  - rewrite trace_logger_info, trace_datetime_now_utc, trace_mailbox_login,
      trace_mailbox_logout.
    cbn [app]. rewrite <- !app_assoc. reflexivity.
  - repeat events_step.
    apply trace_for_each. intros; apply session_process_sender.
  - apply Forall_app; split; assumption.
Qed.

End SessionFacts.

(** *** Dates: the comparison and the day of the search *)

Lemma datetime_ge_cutoff w s d :
  datetime_ge (replace_tzinfo d utc) (cutoff w s)
  = Return (now_utc w (clock_reads s) - 86400000000 <=? naive d)%Z.
Proof.
  unfold datetime_ge, cutoff, datetime_sub, replace_tzinfo, utc.
  cbn [tzinfo naive]. unfold timedelta_days, microseconds_per_day.
  rewrite !Z.sub_0_r. reflexivity.
Qed.

(** X7: in a run the comparison of a message date with the cutoff never
    raises, whether the date has a zone or not: it is decided by the clock
    fields of the date alone.  So when the loop body fails on a message,
    the exception comes from one of the accesses to the message: its date,
    subject, sender, recipients, plain text, or its HTML body when the
    plain text is empty. *)
Theorem message_failure_comes_from_an_access w s msg e :
  read_message (cutoff w s) msg = Raise e ->
  (forall d,
      datetime_ge (replace_tzinfo d utc) (cutoff w s)
      = Return (now_utc w (clock_reads s) - 86400000000 <=? naive d)%Z) /\
  (Msg.date msg = Raise e \/
   Msg.subject msg = Raise e \/
   Msg.from_ msg = Raise e \/
   Msg.to msg = Raise e \/
   Msg.text msg = Raise e \/
   (Msg.text msg = Return EmptyString /\ Msg.html msg = Raise e)).
Proof.
  pose proof (datetime_ge_cutoff w s) as Hge.
  intros H. split; [exact Hge |].
  revert H. unfold read_message.
  destruct (Msg.date msg) as [d | e0]; cbn [and_then];
    [| intros H; injection H as ->; auto 8].
  rewrite Hge. cbn [and_then].
  destruct (now_utc w (clock_reads s) - 86400000000 <=? naive d)%Z;
    [| discriminate].
  destruct (Msg.subject msg) as [sb | e0]; cbn [and_then];
    [| intros H; injection H as ->; auto 8].
  destruct (Msg.from_ msg) as [fr | e0]; cbn [and_then];
    [| intros H; injection H as ->; auto 8].
  destruct (Msg.to msg) as [tos | e0]; cbn [and_then];
    [| intros H; injection H as ->; auto 8].
  destruct (Msg.text msg) as [[| ch tx] | e0]; cbn [and_then truthy];
    [| discriminate | intros H; injection H as ->; auto 8].
  destruct (Msg.html msg) as [h | e0]; cbn [and_then]; [discriminate |].
  intros H; injection H as ->. auto 8.
Qed.


(** *** The prompt *)

Lemma string_app_assoc (a b c : string) : (a ++ b) ++ c = a ++ (b ++ c).
Proof. induction a as [| ch a IH]; simpl; [| rewrite IH]; reflexivity. Qed.

Lemma string_length_app (a b : string) :
  String.length (a ++ b) = String.length a + String.length b.
Proof. induction a as [| ch a IH]; simpl; [| rewrite IH]; reflexivity. Qed.

Lemma prefix_of_length n : forall s,
  String.length (prefix_of n s) = Nat.min n (String.length s).
Proof.
  unfold prefix_of. induction n as [| n IH]; intros [| ch s]; simpl; trivial.
  rewrite IH. reflexivity.
Qed.

Lemma prefix_of_split n : forall s, exists rest, s = prefix_of n s ++ rest.
Proof.
  unfold prefix_of. induction n as [| n IH]; intros [| ch s]; simpl.
  - exists EmptyString; reflexivity.
  - eexists; reflexivity.
  - exists EmptyString; reflexivity.
  - destruct (IH s) as [rest Hrest]. exists rest. rewrite <- Hrest. reflexivity.
Qed.

Lemma prefix_of_short n : forall s,
  String.length s <= n -> prefix_of n s = s.
Proof.
  unfold prefix_of. induction n as [| n IH]; intros [| ch s]; simpl; trivial.
  - intros H; inversion H.
  - intros H. rewrite IH by lia. reflexivity.
Qed.

(** X9: the user message sent to the chat API is the heading lines
    (subject, sender, date) followed by a prefix of the body text of at
    most 2000 characters and by three dots: a text of at most 2000
    characters is sent whole, a longer one is cut after the 2000th, so the
    length of the message does not grow with the body beyond 2000. *)
Theorem prompt_carries_at_most_2000_characters c :
  exists body rest,
    user_prompt (summary_request c) = prompt_head c ++ body ++ "..." /\
    text c = body ++ rest /\
    String.length body = Nat.min 2000 (String.length (text c)) /\
    (String.length (text c) <= 2000 -> body = text c) /\
    String.length (user_prompt (summary_request c))
    = String.length (prompt_head c)
      + Nat.min 2000 (String.length (text c)) + 3.
Proof.
  destruct (prefix_of_split 2000 (text c)) as [rest Hrest].
  exists (prefix_of 2000 (text c)), rest.
  assert (Hprompt : user_prompt (summary_request c)
                    = prompt_head c ++ prefix_of 2000 (text c) ++ "...").
  { unfold user_prompt, summary_request, prompt_head.
    cbn [messages content]. rewrite !string_app_assoc. reflexivity. }
  split; [exact Hprompt | split; [exact Hrest | split; [| split]]].
  - apply prefix_of_length.
  - apply prefix_of_short.
  - rewrite Hprompt, !string_length_app, prefix_of_length. cbn. lia.
Qed.

(** *** The summarizer on success, the listing on failure, the start-up *)

(** X10: when the chat API answers, the summary is the text of its first
    choice, as it is, whatever other choices follow; the call has been
    made once and nothing is logged beyond the INFO line.  In every case,
    answer or failure, [summarize_single_email] makes exactly one call to
    the chat API, with the request built from the record: it never tries
    again. *)
Theorem summary_is_the_first_choice rt w c s first others :
  groq_create w (chat_calls s) (summary_request c) = Return (first :: others) ->
  summarize_single_email rt w c s
  = (Return first, tick_chat s,
     [ Log INFO ("Generating summary for email: "
                 ++ prefix_of 30 (subject c) ++ "...");
       ChatCreate (summary_request c) ]) /\
  (forall w' s',
      chat_requests (trace (summarize_single_email rt w' c) s')
      = [summary_request c]).
Proof.
  intros H. split.
  - unfold summarize_single_email, try_except, bind, logger_info, emit,
      chat_completions_create, lift.
    rewrite H. reflexivity.
  - intros w' s'.
    unfold summarize_single_email, trace, try_except, bind, logger_info,
      logger_error, emit, chat_completions_create, lift, ret.
    destruct (groq_create w' (chat_calls s') (summary_request c))
      as [[| c0 l] | e]; reflexivity.
Qed.

(** X11: when the store fails to answer the query of [/emails], whatever
    the exception is, the endpoint raises an [HTTPException] of status 500
    whose detail is the text of that exception; it has logged the error
    and left the state as it was. *)
Theorem listing_failure_is_http_500 rt w s e :
  supabase_select w "date.desc" = Raise e ->
  get_emails rt w s
  = (Raise (HTTPException 500 (DetailStr (str_exc rt e))), s,
     [ Log INFO "Retrieving emails from Supabase";
       Select "date.desc";
       Log ERROR ("Error in get_emails: " ++ str_exc rt e) ]).
Proof.
  intros H.
  unfold get_emails, try_except, bind, logger_info, logger_error, emit,
    table_select, raise.
  rewrite H. reflexivity.
Qed.

(** X12: [/emails] only reads: whatever the store answers, the endpoint
    asks it once for the rows in the order [date.desc], calls the logger,
    and does nothing else to the outside (no insert, no mailbox, no chat
    call); it leaves every counter as it was. *)
Theorem listing_only_reads rt w s :
  snd (exec (get_emails rt w) s) = s /\
  Forall listing_event (trace (get_emails rt w) s) /\
  exists after,
    trace (get_emails rt w) s
    = Log INFO "Retrieving emails from Supabase" :: Select "date.desc" :: after /\
    Forall is_log after.
Proof.
  unfold exec, trace, get_emails, try_except, bind, logger_info,
    logger_warning, logger_error, emit, table_select, raise, ret.
  destruct (supabase_select w "date.desc") as [[| r rows] | e]; cbn [fst snd app];
    (split; [reflexivity | split; [repeat constructor |
       eexists; split; [reflexivity | repeat constructor]]]).
Qed.

(** X13: the start-up probe never stops the program and never writes to
    the store: whatever the probe of the table does, the block returns
    normally and only calls the logger.  When the probe succeeds it prints
    one line; when it fails it prints a warning with the text of the
    failure and the schema to create by hand. *)
Theorem start_up_probe_only_advises rt probe s :
  exec (check_emails_table rt probe) s = (Return tt, s) /\
  Forall is_log (trace (check_emails_table rt probe) s) /\
  log_output (trace (check_emails_table rt probe) s)
  = match probe with
    | Return _ => [ (INFO, "Checking/Creating emails table in Supabase") ]
    | Raise e =>
        [ (INFO, "Checking/Creating emails table in Supabase");
          (WARNING, "Emails table might not exist: " ++ str_exc rt e);
          (INFO, "Please create the following table in Supabase:");
          (INFO, table_schema) ]
    end.
Proof.
  unfold exec, trace, check_emails_table, try_except, bind, logger_info,
    logger_warning, emit, lift.
  destruct probe as [[] | e]; cbn [fst snd app];
    (split; [reflexivity | split; [repeat constructor | reflexivity]]).
Qed.

(** ** The further properties at work on the sample world *)

Lemma extraction_returns_kept_messages_in_order_witness :
  fst (exec (extract_emails_from_inbox sample_runtime sample_world
               "me@y.com" "app-password" ["a@x.com"]) initial_state)
  = Return sample_records /\
  sample_records
  = records_from sample_runtime sample_world 1 0
      (kept_fields (cutoff sample_world initial_state)
         (yielded sample_world
                  (datetime_date (cutoff sample_world initial_state))
                  0 ["a@x.com"])).
Proof.
  split; [vm_compute; reflexivity |].
  apply (extraction_returns_kept_messages_in_order sample_runtime sample_world
           "me@y.com" "app-password" ["a@x.com"] initial_state sample_records).
  vm_compute; reflexivity.
Defined.

Lemma calls_of_a_successful_run_witness :
  let s' := snd (exec (extract_emails_from_inbox sample_runtime sample_world
                         "me@y.com" "app-password" ["a@x.com"]) initial_state) in
  exec (extract_emails_from_inbox sample_runtime sample_world
          "me@y.com" "app-password" ["a@x.com"]) initial_state
  = (Return sample_records, s') /\
  fetch_calls s' = 1 /\ chat_calls s' = 2 /\ clock_reads s' = 3 /\
  insert_calls s' = 0.
Proof.
  intros s'.
  assert (H : exec (extract_emails_from_inbox sample_runtime sample_world
                      "me@y.com" "app-password" ["a@x.com"]) initial_state
              = (Return sample_records, s')) by (vm_compute; reflexivity).
  split; [exact H |].
  destruct (calls_of_a_successful_run sample_runtime sample_world
              "me@y.com" "app-password" ["a@x.com"] initial_state
              sample_records s' H) as (_ & Hf & Hc & Hn & Hi).
  repeat split; assumption.
Defined.

Lemma mailbox_failure_is_reported_witness :
  let e := HTTPException 500
             (DetailDict
                [ ("message", "Failed to fetch emails");
                  ("error", "[AUTHENTICATIONFAILED] Invalid credentials (Failure)");
                  ("email", "me@y.com") ]) in
  fst (exec (extract_emails_from_inbox sample_runtime sample_world
               "me@y.com" "wrong" ["a@x.com"]) initial_state) = Raise e /\
  exists cause,
    e = HTTPException 500
          (DetailDict [ ("message", "Failed to fetch emails");
                        ("error", str_exc sample_runtime cause);
                        ("email", "me@y.com") ]) /\
    (imap_login sample_world "me@y.com" "wrong" = Some cause \/
     imap_logout sample_world = Some cause \/
     exists k sender,
       snd (imap_fetch sample_world k sender
              (datetime_date (cutoff sample_world initial_state)))
       = Some cause).
Proof.
  intros e.
  assert (H : fst (exec (extract_emails_from_inbox sample_runtime sample_world
                           "me@y.com" "wrong" ["a@x.com"]) initial_state)
              = Raise e) by (vm_compute; reflexivity).
  split; [exact H |].
  exact (mailbox_failure_is_reported sample_runtime sample_world
           "me@y.com" "wrong" ["a@x.com"] initial_state e H).
Defined.

Lemma rejected_login_stops_the_run_witness :
  imap_login sample_world "me@y.com" "wrong"
  = Some (Exception "[AUTHENTICATIONFAILED] Invalid credentials (Failure)") /\
  trace (extract_emails_from_inbox sample_runtime sample_world
           "me@y.com" "wrong" ["a@x.com"]) initial_state
  = [ Log INFO "Attempting to connect to Gmail IMAP for: me@y.com";
      Now;
      Login "me@y.com" "wrong";
      Log ERROR "Failed to fetch emails: [AUTHENTICATIONFAILED] Invalid credentials (Failure)" ].
Proof.
  split; [reflexivity |].
  unfold trace.
  rewrite (rejected_login_stops_the_run sample_runtime sample_world
             "me@y.com" "wrong" ["a@x.com"] initial_state
             (Exception "[AUTHENTICATIONFAILED] Invalid credentials (Failure)")
             eq_refl).
  reflexivity.
Defined.

Lemma extract_passes_mailbox_failure_on_witness :
  let req := EmailRequest.mk "me@y.com" "wrong" ["a@x.com"] in
  let e := HTTPException 500
             (DetailDict
                [ ("message", "Failed to fetch emails");
                  ("error", "[AUTHENTICATIONFAILED] Invalid credentials (Failure)");
                  ("email", "me@y.com") ]) in
  fst (exec (extract_emails_from_inbox sample_runtime sample_world
               "me@y.com" "wrong" ["a@x.com"]) initial_state) = Raise e /\
  fst (exec (extract_from_email sample_runtime sample_world req) initial_state)
  = Raise e /\
  inserts (trace (extract_from_email sample_runtime sample_world req)
                 initial_state) = [].
Proof.
  intros req e.
  assert (H : fst (exec (extract_emails_from_inbox sample_runtime sample_world
                           "me@y.com" "wrong" ["a@x.com"]) initial_state)
              = Raise e) by (vm_compute; reflexivity).
  split; [exact H |].
  destruct (extract_passes_mailbox_failure_on sample_runtime sample_world
              req initial_state e H) as (Hr & Hi & _).
  split; assumption.
Defined.

Lemma session_is_closed_once_witness :
  imap_login sample_world "me@y.com" "app-password" = None /\
  exists inside after,
    trace (extract_emails_from_inbox sample_runtime sample_world
             "me@y.com" "app-password" ["a@x.com"]) initial_state
    = (Log INFO ("Attempting to connect to Gmail IMAP for: " ++ "me@y.com")
       :: Now :: Login "me@y.com" "app-password"
       :: inside ++ Logout :: after)%list /\
    Forall session_event inside /\
    Forall is_log after.
Proof.
  split; [reflexivity |].
  exact (session_is_closed_once sample_runtime sample_world
           "me@y.com" "app-password" ["a@x.com"] initial_state eq_refl).
Defined.

Lemma message_failure_comes_from_an_access_witness :
  read_message (cutoff sample_world initial_state) msg_undecodable
  = Raise (Exception "unknown encoding: x-unknown") /\
  Msg.text msg_undecodable = Raise (Exception "unknown encoding: x-unknown").
Proof.
  assert (H : read_message (cutoff sample_world initial_state) msg_undecodable
              = Raise (Exception "unknown encoding: x-unknown"))
    by (vm_compute; reflexivity).
  split; [exact H |].
  destruct (message_failure_comes_from_an_access sample_world initial_state
              msg_undecodable (Exception "unknown encoding: x-unknown") H)
    as (_ & [Hd | [Hs | [Hf | [Ht | [Hx | [Hx _]]]]]]);
    solve [exact Hx | discriminate].
Defined.


Lemma summary_is_the_first_choice_witness :
  let c := hd row_a sample_records in
  groq_create sample_world 0 (summary_request c)
  = Return ["A short summary."] /\
  fst (exec (summarize_single_email sample_runtime sample_world c)
            initial_state)
  = Return "A short summary.".
Proof.
  intros c. split; [reflexivity |].
  destruct (summary_is_the_first_choice sample_runtime sample_world c
              initial_state "A short summary." [] eq_refl) as (H & _).
  unfold exec. rewrite H. reflexivity.
Defined.

Lemma listing_failure_is_http_500_witness :
  supabase_select unreachable_store_world "date.desc"
  = Raise (Exception "connection refused") /\
  fst (exec (get_emails sample_runtime unreachable_store_world) initial_state)
  = Raise (HTTPException 500 (DetailStr "connection refused")).
Proof.
  split; [reflexivity |].
  unfold exec.
  rewrite (listing_failure_is_http_500 sample_runtime unreachable_store_world
             initial_state (Exception "connection refused") eq_refl).
  reflexivity.
Defined.
